(** * Traffic simulation (traffic_omp.c): model and verified properties

    A shallow embedding of the signal-controlled intersection simulator:
    the traffic-light state machine [update_traffic_light], the vehicle
    motion rule [move_vehicle], the team-size heuristic [choose_threads]
    and the tick loop of [run_simulation], followed by the properties the
    specification states about them.

    Conventions of the embedding.
    - A C [int] is a [Z]; every arithmetic operation on it is written with
      its 32-bit two's-complement wrap-around ([Int32.wrap]).
    - A C [double] is a value of the carrier of a [Double] interface.  Two
      models of the interface are given: [IEEE] is binary64 as specified
      by the standard library's [SpecFloat] (round to nearest even, signed
      zeros, infinities, NaN); [Exact] is the field of rationals, the
      idealised arithmetic in which the specification phrases its
      statements about durations and tick counts, and with which a run
      of the program agrees as long as its ticks do not round
      ([exact_run]).  The program is written once, over the interface.
    - A pointer to a struct is the struct itself, passed in and returned.
      An array is a list; an access outside its bounds is undefined
      behaviour, modelled by [None].
    - The OpenMP work-sharing loops are modelled by their sequential
      semantics (iterations in index order); [tick_in_order] runs their
      iterations in any given order.
    - The OpenMP runtime is reduced to its control variable
      nthreads-var, which [omp_get_max_threads] reads and
      [omp_set_num_threads] writes.
    - What the program prints is a list of lines, one for each [printf],
      with the arguments of the call. *)

From Stdlib Require Import String.
From Stdlib Require Import ZArith QArith Qround Bool List Lia Lqa.
From Stdlib Require Import SpecFloat Permutation.
Import ListNotations.

Open Scope Z_scope.

(** ** 32-bit signed integers *)

Module Int32.

Definition INT_MAX : Z := 2147483647.
Definition INT_MIN : Z := -2147483648.

(** Reduction of a mathematical integer to the representable range. *)
Definition wrap (z : Z) : Z := (z + 2147483648) mod 4294967296 - 2147483648.

Definition in_range (z : Z) : Prop := INT_MIN <= z <= INT_MAX.

Definition add (a b : Z) : Z := wrap (a + b).

(** C99 division truncates toward zero. *)
Definition div (a b : Z) : Z := wrap (Z.quot a b).

Definition rem (a b : Z) : Z := Z.rem a b.

End Int32.

(** ** The arithmetic of [double] *)

Class Double : Type := {
  double : Type;
  (** [(double) n]; also the small integral literals [0.0], [2.0], ... *)
  of_int : Z -> double;
  dadd : double -> double -> double;
  dsub : double -> double -> double;
  dmul : double -> double -> double;
  ddiv : double -> double -> double;
  (** [a <= b] and [a < b] *)
  dle : double -> double -> bool;
  dlt : double -> double -> bool
}.

(** The one law of the order that the motion rule relies on: a number
    strictly above another is not below or equal to it.  Both models
    satisfy it ([binary64_ordered], [rational_ordered]). *)
Class OrderedDouble (D : Double) : Prop := {
  dlt_not_dle : forall a b : double, dlt a b = true -> dle b a = false
}.

(** [a >= b] is [b <= a]. *)
Definition dge {D : Double} (a b : double) : bool := dle b a.

(** *** binary64 *)

Module IEEE.

Definition prec : Z := 53.
Definition emax : Z := 1024.

Definition from_Z (z : Z) : spec_float := binary_normalize prec emax z 0 false.

Definition binary64 : Double := {|
  double := spec_float;
  of_int := from_Z;
  dadd := SFadd prec emax;
  dsub := SFsub prec emax;
  dmul := SFmul prec emax;
  ddiv := SFdiv prec emax;
  dle := SFleb;
  dlt := SFltb
|}.

End IEEE.

(** *** exact rationals *)

Module Exact.

Definition ltb (a b : Q) : bool := negb (Qle_bool b a).

Definition rational : Double := {|
  double := Q;
  of_int := inject_Z;
  dadd := Qplus;
  dsub := Qminus;
  dmul := Qmult;
  ddiv := Qdiv;
  dle := Qle_bool;
  dlt := ltb
|}.

End Exact.

(** ** Arrays *)

(** [a[i]] for an [int] index: defined inside the bounds only. *)
Definition aget {A : Type} (a : list A) (i : Z) : option A :=
  if i <? 0 then None else nth_error a (Z.to_nat i).

Fixpoint upd {A : Type} (a : list A) (n : nat) (x : A) : list A :=
  match a, n with
  | [], _ => []
  | _ :: r, O => x :: r
  | y :: r, S n' => y :: upd r n' x
  end.

(** [a[i] = x]. *)
Definition aset {A : Type} (a : list A) (i : Z) (x : A) : option (list A) :=
  if (0 <=? i) && (i <? Z.of_nat (length a)) then Some (upd a (Z.to_nat i) x)
  else None.

(** [for (int i = 0; i < N; ++i) body], the loop state threaded through;
    an iteration that is undefined makes the loop undefined. *)
Fixpoint for_loop {S : Type} (n : nat) (i : Z) (body : Z -> S -> option S)
    (s : S) : option S :=
  match n with
  | O => Some s
  | Datatypes.S n' =>
      match body i s with
      | Some s' => for_loop n' (i + 1) body s'
      | None => None
      end
  end.

Definition c_for {S : Type} (N : Z) (body : Z -> S -> option S) (s : S)
    : option S :=
  for_loop (Z.to_nat N) 0 body s.

(** What a run that may loop comes to: it returns, it runs into undefined
    behaviour, or the step budget of the model is used up first. *)
Inductive outcome (A : Type) : Type :=
  | Returned (a : A)
  | Undefined
  | OutOfFuel.
Arguments Returned {A} a.
Arguments Undefined {A}.
Arguments OutOfFuel {A}.

(** ** Data model *)

(** [typedef enum { RED = 0, GREEN = 1, YELLOW = 2 } LightState;] *)
Inductive LightState : Type := RED | GREEN | YELLOW.

Definition LightState_eqb (a b : LightState) : bool :=
  match a, b with
  | RED, RED | GREEN, GREEN | YELLOW, YELLOW => true
  | _, _ => false
  end.

Section Program.

Context {D : Double}.

Record TrafficLight : Type := mkTrafficLight {
  light_id : Z;
  state : LightState;
  time_in_state : double;
  t_green : double;
  t_yellow : double;
  t_red : double
}.

Record Vehicle : Type := mkVehicle {
  vehicle_id : Z;
  lane : Z;
  pos : double;
  speed : double;
  waiting : bool;
  total_wait : double;
  crossings : Z;
  finished : bool
}.

Record Intersection : Type := mkIntersection {
  num_lanes : Z;
  num_lights : Z;
  stop_distance : double;
  lights : list TrafficLight
}.

(** Field assignments [L->f = x], [V->f = x]. *)
Definition set_state (L : TrafficLight) (s : LightState) : TrafficLight :=
  mkTrafficLight (light_id L) s (time_in_state L) (t_green L) (t_yellow L) (t_red L).
Definition set_time_in_state (L : TrafficLight) (t : double) : TrafficLight :=
  mkTrafficLight (light_id L) (state L) t (t_green L) (t_yellow L) (t_red L).

Definition set_pos (V : Vehicle) (p : double) : Vehicle :=
  mkVehicle (vehicle_id V) (lane V) p (speed V) (waiting V) (total_wait V)
    (crossings V) (finished V).
Definition set_waiting (V : Vehicle) (w : bool) : Vehicle :=
  mkVehicle (vehicle_id V) (lane V) (pos V) (speed V) w (total_wait V)
    (crossings V) (finished V).
Definition set_total_wait (V : Vehicle) (t : double) : Vehicle :=
  mkVehicle (vehicle_id V) (lane V) (pos V) (speed V) (waiting V) t
    (crossings V) (finished V).
Definition set_crossings (V : Vehicle) (c : Z) : Vehicle :=
  mkVehicle (vehicle_id V) (lane V) (pos V) (speed V) (waiting V) (total_wait V)
    c (finished V).
Definition set_finished (V : Vehicle) (f : bool) : Vehicle :=
  mkVehicle (vehicle_id V) (lane V) (pos V) (speed V) (waiting V) (total_wait V)
    (crossings V) f.

(** ** Traffic lights *)

(** [void update_traffic_light(TrafficLight* L, double dt)] *)
Definition update_traffic_light (L : TrafficLight) (dt : double) : TrafficLight :=
  let L := set_time_in_state L (dadd (time_in_state L) dt) in
  match state L with
  | GREEN =>
      if dge (time_in_state L) (t_green L)
      then set_time_in_state (set_state L YELLOW) (of_int 0)
      else L
  | YELLOW =>
      if dge (time_in_state L) (t_yellow L)
      then set_time_in_state (set_state L RED) (of_int 0)
      else L
  | RED =>
      if dge (time_in_state L) (t_red L)
      then set_time_in_state (set_state L GREEN) (of_int 0)
      else L
  end.

(** ** Vehicles *)

(** [L->state == GREEN || L->state == YELLOW] *)
Definition go (s : LightState) : bool :=
  LightState_eqb s GREEN || LightState_eqb s YELLOW.

(** The tail of [move_vehicle], reached when the vehicle did not cross:
    [if (V->waiting) V->total_wait += dt; return 0;] *)
Definition count_wait (V : Vehicle) (dt : double) : Vehicle * Z :=
  (if waiting V then set_total_wait V (dadd (total_wait V) dt) else V, 0).

(** [int move_vehicle(Vehicle* V, const Intersection* X, double dt)]:
    the vehicle after the call and the returned flag.  The light
    [X->lights[V->lane]] must lie inside the array. *)
Definition move_vehicle (V : Vehicle) (X : Intersection) (dt : double)
    : option (Vehicle * Z) :=
  if finished V then Some (V, 0)
  else
    match aget (lights X) (lane V) with
    | None => None
    | Some L =>
        let V := if waiting V && go (state L) then set_waiting V false else V in
        let V := if negb (waiting V)
                 then set_pos V (dsub (pos V) (dmul (speed V) dt)) else V in
        if dle (pos V) (of_int 0) then
          if go (state L) then
            let V := set_crossings V 1 in
            let V := set_finished V true in
            let V := set_pos V (of_int 0) in
            Some (V, 1)
          else
            let V := set_pos V (stop_distance X) in
            let V := set_waiting V true in
            Some (count_wait V dt)
        else Some (count_wait V dt)
    end.

(** ** Team-size heuristic *)

(** [int choose_threads(int num_vehicles, int num_lights_green)];
    [max_threads] is the value that its call of [omp_get_max_threads()]
    returns. *)
Definition choose_threads (max_threads num_vehicles num_lights_green : Z)
    : Z :=
  let by_vehicles := Int32.div (Int32.add num_vehicles 15) 16 in
  let by_greens :=
    if 0 <? num_lights_green
    then Int32.add 1 (Int32.div num_lights_green 2) else 1 in
  let proposed := Int32.add by_vehicles by_greens in
  let proposed := if proposed <? 1 then 1 else proposed in
  let proposed := if max_threads <? proposed then max_threads else proposed in
  proposed.

(** The value of the control variable nthreads-var when the program
    starts: what [omp_get_max_threads()] returns as long as
    [omp_set_num_threads] has not been called. *)
Variable max_threads : Z.

(** ** Initialisation *)

(** The C library's generator: [RAND_MAX], and the value [rand seed k]
    of the [k]-th call of [rand()] after [srand(seed)]. *)
Variable RAND_MAX : Z.
Variable rand : Z -> nat -> Z.

(** [rand_uniform(a, b)], given the value [r] that [rand()] returns. *)
Definition rand_uniform (a b : double) (r : Z) : double :=
  dadd a (dmul (dsub b a) (ddiv (of_int r) (of_int RAND_MAX))).

(** The lights [i], [i+1], ... written by the loop of [init_intersection];
    [k] counts the calls of [rand()] made so far. *)
Fixpoint init_lights (n : nat) (i : Z) (seed : Z) (k : nat)
    : list TrafficLight :=
  match n with
  | O => []
  | S n' =>
      let g := rand_uniform (of_int 5) (of_int 9) (rand seed k) in
      let y := rand_uniform (of_int 2) (of_int 4) (rand seed (k + 1)) in
      let r := rand_uniform (of_int 5) (of_int 9) (rand seed (k + 2)) in
      mkTrafficLight i (if Int32.rem i 2 =? 0 then GREEN else RED)
        (of_int 0) g y r
      :: init_lights n' (i + 1) seed (k + 3)
  end.

(** [void init_intersection(Intersection* X, int num_lanes)]; returns the
    intersection and the number of [rand()] calls made. *)
Definition init_intersection (num_lanes : Z) (seed : Z) (k : nat)
    : Intersection * nat :=
  let n := Z.to_nat num_lanes in
  (mkIntersection num_lanes num_lanes (of_int 2) (init_lights n 0 seed k),
   (k + 3 * n)%nat).

(** [Vehicle* init_vehicles(int N)]: the vehicles [i], [i+1], ... *)
Fixpoint init_vehicles_from (n : nat) (i : Z) (seed : Z) (k : nat)
    : list Vehicle :=
  match n with
  | O => []
  | S n' =>
      let p := rand_uniform (of_int 20) (of_int 200) (rand seed k) in
      let v := rand_uniform (of_int 6) (of_int 14) (rand seed (k + 1)) in
      mkVehicle i (Int32.rem i 4) p v false (of_int 0) 0 false
      :: init_vehicles_from n' (i + 1) seed (k + 2)
  end.

Definition init_vehicles (N : Z) (seed : Z) (k : nat) : list Vehicle :=
  init_vehicles_from (Z.to_nat N) 0 seed k.

(** ** The simulation *)

(** The state of the tick loop.  The locals of [run_simulation] that the
    loop reads and writes: [X], [V], [crossed_now], [total_crossed],
    [step], [sim_time] and [threads], the team size computed in the last
    tick.  And the control variable of the OpenMP runtime that
    [omp_set_num_threads] writes and [omp_get_max_threads] reads
    (nthreads-var, the number of threads of the parallel regions to
    come). *)
Record Sim : Type := mkSim {
  isect : Intersection;
  vehicles : list Vehicle;
  crossed_now : list Z;
  total_crossed : Z;
  step : Z;
  sim_time : double;
  threads : Z;
  nthreads_var : Z
}.

(** [if (X.lights[i].state == GREEN) greens_now++;] *)
Definition count_green (X : Intersection) (i : Z) (greens_now : Z) : option Z :=
  match aget (lights X) i with
  | Some L =>
      Some (if LightState_eqb (state L) GREEN
            then Int32.add greens_now 1 else greens_now)
  | None => None
  end.

(** [update_traffic_light(&X.lights[i], dt);] *)
Definition light_phase (dt : double) (i : Z) (ls : list TrafficLight)
    : option (list TrafficLight) :=
  match aget ls i with
  | Some L => aset ls i (update_traffic_light L dt)
  | None => None
  end.

(** [crossed_now[i] = 0;] *)
Definition reset_phase (i : Z) (cn : list Z) : option (list Z) :=
  aset cn i 0.

(** The body of the motion loop on its state [(V, crossed_now,
    crossed_step)]:
    [int c = move_vehicle(&V[i], &X, dt); if (c) crossed_now[i] = 1;
     crossed_step += c;] *)
Definition motion_phase (X : Intersection) (dt : double) (i : Z)
    (st : list Vehicle * list Z * Z) : option (list Vehicle * list Z * Z) :=
  let '(V, cn, crossed_step) := st in
  match aget V i with
  | None => None
  | Some v =>
      match move_vehicle v X dt with
      | None => None
      | Some (v', c) =>
          match aset V i v' with
          | None => None
          | Some V' =>
              match (if c =? 0 then Some cn else aset cn i 1) with
              | None => None
              | Some cn' => Some (V', cn', Int32.add crossed_step c)
              end
          end
      end
  end.

(** One iteration of the [while] loop of [run_simulation].  The call of
    [omp_get_max_threads()] in [choose_threads] reads the control
    variable; [omp_set_num_threads(threads)] stores the team size in it
    (a positive number whenever the control variable is positive, as it
    is in every OpenMP runtime). *)
Definition tick (num_vehicles : Z) (dt : double) (s : Sim) : option Sim :=
  let X := isect s in
  match c_for (num_lights X) (count_green X) 0 with
  | None => None
  | Some greens_now =>
      let threads := choose_threads (nthreads_var s) num_vehicles greens_now in
      let nthreads_var := threads in
      match c_for (num_lights X) (light_phase dt) (lights X) with
      | None => None
      | Some ls =>
          let X := mkIntersection (num_lanes X) (num_lights X)
                     (stop_distance X) ls in
          match c_for num_vehicles reset_phase (crossed_now s) with
          | None => None
          | Some cn =>
              match c_for num_vehicles (motion_phase X dt)
                      (vehicles s, cn, 0) with
              | None => None
              | Some (V, cn, crossed_step) =>
                  Some (mkSim X V cn
                          (Int32.add (total_crossed s) crossed_step)
                          (Int32.add (step s) 1)
                          (dadd (sim_time s) dt)
                          threads nthreads_var)
              end
          end
      end
  end.

(** [while (total_crossed < num_vehicles) { ... }] *)
Fixpoint run_loop (fuel : nat) (num_vehicles : Z) (dt : double) (s : Sim)
    : outcome Sim :=
  if total_crossed s <? num_vehicles then
    match fuel with
    | O => OutOfFuel
    | S fuel' =>
        match tick num_vehicles dt s with
        | Some s' => run_loop fuel' num_vehicles dt s'
        | None => Undefined
        end
    end
  else Returned s.

(** The figures of the final report. *)
Record Summary : Type := mkSummary {
  sm_vehicles : Z;
  sm_steps : Z;
  sm_crossed : Z;
  sm_total_crossings : Z;
  sm_avg_wait : double;
  sm_sim_time : double
}.

(** [avg_wait += V[i].total_wait; total_crossings += V[i].crossings;] *)
Definition metrics (V : list Vehicle) (i : Z) (acc : double * Z)
    : option (double * Z) :=
  match aget V i with
  | Some v =>
      Some (dadd (fst acc) (total_wait v), Int32.add (snd acc) (crossings v))
  | None => None
  end.

(** The state in which the tick loop is entered. *)
Definition init_sim (num_vehicles : Z) (seed : Z) : Sim :=
  let '(X, k) := init_intersection 4 seed 0 in
  let V := init_vehicles num_vehicles seed k in
  mkSim X V (repeat 0 (Z.to_nat num_vehicles)) 0 0 (of_int 0) 0 max_threads.

(** [void run_simulation(int num_vehicles, int print_every, double dt,
    unsigned int seed)]: the figures it reports.  Printing and the wall
    clock are left out; the allocations are taken to succeed. *)
Definition run_simulation (fuel : nat) (num_vehicles print_every : Z)
    (dt : double) (seed : Z) : outcome Summary :=
  match run_loop fuel num_vehicles dt (init_sim num_vehicles seed) with
  | Returned s =>
      match c_for num_vehicles (metrics (vehicles s)) (of_int 0, 0) with
      | Some (avg_wait, total_crossings) =>
          let avg_wait := ddiv avg_wait (of_int num_vehicles) in
          Returned (mkSummary num_vehicles (step s) (total_crossed s)
                      total_crossings avg_wait (sim_time s))
      | None => Undefined
      end
  | Undefined => Undefined
  | OutOfFuel => OutOfFuel
  end.

(** [int main(int argc, char** argv)]: [args] holds the values of
    [atoi(argv[1])], [atoi(argv[2])], ... and [now] that of [time(NULL)].
    The result is the report of the run and the exit status. *)
Definition main (fuel : nat) (args : list Z) (now : Z)
    : outcome (Summary * Z) :=
  let N := nth 0 args 8 in
  let print_every := nth 1 args 1 in
  let dt := of_int 1 in
  let seed := nth 2 args now in
  match run_simulation fuel N print_every dt seed with
  | Returned r => Returned (r, 0)
  | Undefined => Undefined
  | OutOfFuel => OutOfFuel
  end.

End Program.

(** ** Vocabulary of the properties *)

(** The phase that follows a phase in the cycle. *)
Definition next_phase (s : LightState) : LightState :=
  match s with
  | GREEN => YELLOW
  | YELLOW => RED
  | RED => GREEN
  end.

(** The configured duration of the phase a light is in. *)
Definition duration {D : Double} (L : TrafficLight) : double :=
  match state L with
  | GREEN => t_green L
  | YELLOW => t_yellow L
  | RED => t_red L
  end.

(** [n] successive calls of [update_traffic_light]. *)
Fixpoint updates {D : Double} (n : nat) (L : TrafficLight) (dt : double)
    : TrafficLight :=
  match n with
  | O => L
  | S n' => updates n' (update_traffic_light L dt) dt
  end.

Section Vocabulary.

Context {D : Double}.

(** The intersection once every light has been updated. *)
Definition lights_after (dt : double) (X : Intersection) : Intersection :=
  mkIntersection (num_lanes X) (num_lights X) (stop_distance X)
    (map (fun L => update_traffic_light L dt) (lights X)).

(** The outcome of [move_vehicle] where it is defined. *)
Definition step_vehicle (X : Intersection) (dt : double) (v : Vehicle)
    : Vehicle * Z :=
  match move_vehicle v X dt with
  | Some r => r
  | None => (v, 0)
  end.

(** The number of green lights as the counting loop computes it. *)
Definition greens (ls : list TrafficLight) : Z :=
  fold_left
    (fun g L => if LightState_eqb (state L) GREEN then Int32.add g 1 else g)
    ls 0.

(** The state after one tick, in closed form ([tick_closed_form]). *)
Definition tick_result (num_vehicles : Z) (dt : double) (s : Sim) : Sim :=
  let X := lights_after dt (isect s) in
  let r := map (step_vehicle X dt) (vehicles s) in
  let threads :=
    choose_threads (nthreads_var s) num_vehicles (greens (lights (isect s))) in
  mkSim X (map fst r)
    (map (fun p => if snd p =? 0 then 0 else 1) r)
    (Int32.add (total_crossed s) (fold_left Int32.add (map snd r) 0))
    (Int32.add (step s) 1)
    (dadd (sim_time s) dt)
    threads threads.

(** The number of vehicles whose [finished] flag is set. *)
Definition count_finished (V : list Vehicle) : Z :=
  Z.of_nat (length (filter finished V)).

(** The one-shot shape of a vehicle: it has crossed at most once, it has
    crossed exactly when it is finished, and a finished vehicle is not
    waiting. *)
Definition one_shot (v : Vehicle) : Prop :=
  crossings v = Z.b2z (finished v)
  /\ (finished v = true -> waiting v = false).

(** The arrays of a state have the sizes the loops assume, and every
    vehicle's lane has a light. *)
Definition wf_sim (num_vehicles : Z) (s : Sim) : Prop :=
  num_lights (isect s) = Z.of_nat (length (lights (isect s)))
  /\ length (vehicles s) = Z.to_nat num_vehicles
  /\ length (crossed_now s) = Z.to_nat num_vehicles
  /\ Forall (fun v => 0 <= lane v < num_lights (isect s)) (vehicles s).

(** What holds at every tick boundary: the cumulative count is the
    number of finished vehicles. *)
Definition boundary_inv (N : Z) (s : Sim) : Prop :=
  wf_sim N s /\ total_crossed s = count_finished (vehicles s).

(** The state in which the tick loop is entered, for an intersection, a
    population of vehicles and a value of the control variable. *)
Definition start (max_threads : Z) (X : Intersection) (V : list Vehicle)
    : Sim :=
  mkSim X V (repeat 0 (length V)) 0 0 (of_int 0) 0 max_threads.

(** The states of the tick loop of a run. *)
Inductive reachable (max_threads RAND_MAX : Z) (rand : Z -> nat -> Z)
    (num_vehicles : Z) (dt : double) (seed : Z) : Sim -> Prop :=
  | reach_init :
      reachable max_threads RAND_MAX rand num_vehicles dt seed
        (init_sim max_threads RAND_MAX rand num_vehicles seed)
  | reach_tick s s' :
      reachable max_threads RAND_MAX rand num_vehicles dt seed s ->
      total_crossed s < num_vehicles ->
      tick num_vehicles dt s = Some s' ->
      reachable max_threads RAND_MAX rand num_vehicles dt seed s'.

(** [n] ticks one after the other, whatever the loop condition. *)
Fixpoint ticks (num_vehicles : Z) (dt : double) (n : nat) (s : Sim)
    : option Sim :=
  match n with
  | O => Some s
  | S n' =>
      match tick num_vehicles dt s with
      | Some s' => ticks num_vehicles dt n' s'
      | None => None
      end
  end.

(** [n] ticks in closed form. *)
Fixpoint tick_results (num_vehicles : Z) (dt : double) (n : nat) (s : Sim)
    : Sim :=
  match n with
  | O => s
  | S n' => tick_results num_vehicles dt n' (tick_result num_vehicles dt s)
  end.

(** The loop condition [total_crossed < num_vehicles] holds at the first
    [n] tick boundaries from [s]: the loop runs [n] ticks at least. *)
Fixpoint running (num_vehicles : Z) (dt : double) (n : nat) (s : Sim)
    : bool :=
  match n with
  | O => true
  | S n' =>
      (total_crossed s <? num_vehicles)
      && running num_vehicles dt n' (tick_result num_vehicles dt s)
  end.

(** The lights after [n] ticks, and a vehicle after [n] ticks in front of
    them. *)
Fixpoint lights_after_n (n : nat) (dt : double) (X : Intersection)
    : Intersection :=
  match n with
  | O => X
  | S n' => lights_after_n n' dt (lights_after dt X)
  end.

Fixpoint drive (n : nat) (X : Intersection) (dt : double) (v : Vehicle)
    : Vehicle :=
  match n with
  | O => v
  | S n' =>
      let X' := lights_after dt X in
      drive n' X' dt (fst (step_vehicle X' dt v))
  end.

End Vocabulary.

(** ** The call of [move_vehicle] on the memory

    In the motion loop the call is [move_vehicle(&V[i], &X, dt)]: the
    function works through two pointers on the memory that holds the
    vehicle array and the intersection.  Here it is statement by
    statement, every [V->f = e] a store to the struct [V[i]], every
    [V->f], [L->state] and [X->stop_distance] a load. *)

Section Memory.

Context {D : Double}.

Record Memory : Type := mkMemory {
  mem_V : list Vehicle;
  mem_X : Intersection
}.

(** Commands read and write the memory and return a value; they are
    undefined where an access falls outside an array. *)
Definition Cmd (A : Type) : Type := Memory -> option (A * Memory).

Definition ret {A : Type} (a : A) : Cmd A := fun m => Some (a, m).

Definition bind {A B : Type} (c : Cmd A) (k : A -> Cmd B) : Cmd B :=
  fun m => match c m with
           | Some (a, m') => k a m'
           | None => None
           end.

Notation "x <- c ;; k" := (bind c (fun x => k))
  (at level 61, c at next level, right associativity).
Notation "c ;;; k" := (bind c (fun _ => k))
  (at level 61, right associativity).

(** The struct [V[i]], read. *)
Definition load_vehicle (i : Z) : Cmd Vehicle :=
  fun m => match aget (mem_V m) i with
           | Some v => Some (v, m)
           | None => None
           end.

(** An assignment to a field of [V[i]], given as the change [f] that it
    makes to the struct. *)
Definition store_vehicle (i : Z) (f : Vehicle -> Vehicle) : Cmd unit :=
  fun m => match aget (mem_V m) i with
           | Some v =>
               match aset (mem_V m) i (f v) with
               | Some V' => Some (tt, mkMemory V' (mem_X m))
               | None => None
               end
           | None => None
           end.

(** [X->lights[k]] and [X->stop_distance], read. *)
Definition load_light (k : Z) : Cmd TrafficLight :=
  fun m => match aget (lights (mem_X m)) k with
           | Some L => Some (L, m)
           | None => None
           end.

Definition load_stop_distance : Cmd double :=
  fun m => Some (stop_distance (mem_X m), m).

(** [if (V->waiting) V->total_wait += dt; return 0;] *)
Definition wait_and_return (i : Z) (dt : double) : Cmd Z :=
  V <- load_vehicle i ;;
  (if waiting V
   then store_vehicle i (fun V => set_total_wait V (dadd (total_wait V) dt))
   else ret tt) ;;;
  ret 0.

(** [move_vehicle(&V[i], &X, dt)] *)
Definition move_vehicle_mem (i : Z) (dt : double) : Cmd Z :=
  V <- load_vehicle i ;;
  if finished V then ret 0
  else
    let k := lane V in
    L <- load_light k ;;
    (if waiting V && go (state L)
     then store_vehicle i (fun V => set_waiting V false)
     else ret tt) ;;;
    V <- load_vehicle i ;;
    (if negb (waiting V)
     then store_vehicle i
            (fun V => set_pos V (dsub (pos V) (dmul (speed V) dt)))
     else ret tt) ;;;
    V <- load_vehicle i ;;
    if dle (pos V) (of_int 0) then
      L <- load_light k ;;
      if go (state L) then
        store_vehicle i (fun V => set_crossings V 1) ;;;
        store_vehicle i (fun V => set_finished V true) ;;;
        store_vehicle i (fun V => set_pos V (of_int 0)) ;;;
        ret 1
      else
        d <- load_stop_distance ;;
        store_vehicle i (fun V => set_pos V d) ;;;
        store_vehicle i (fun V => set_waiting V true) ;;;
        wait_and_return i dt
    else wait_and_return i dt.

(** The memory in which the vehicle [i] of [V] has become [v]. *)
Definition with_vehicle (V : list Vehicle) (X : Intersection) (i : Z)
    (v : Vehicle) : Memory :=
  mkMemory (upd V (Z.to_nat i) v) X.

End Memory.

(** The team size as the specification words it:
    [clamp(ceil(n / 16) + (1 + floor(g / 2) if g > 0 else 1), 1, M)],
    on mathematical integers. *)
Definition ceil_div (a b : Z) : Z := - ((- a) / b).

Definition clamp (x lo hi : Z) : Z := Z.min (Z.max x lo) hi.

Definition team_size_formula (M n g : Z) : Z :=
  clamp (ceil_div n 16 + (if 0 <? g then 1 + g / 2 else 1)) 1 M.

(** *** Vocabulary of exact arithmetic *)

Section ExactVocabulary.

#[local] Existing Instance Exact.rational.

(** [k] ticks, as a duration. *)
Definition span (k : nat) (dt : Q) : Q := (inject_Z (Z.of_nat k) * dt)%Q.

Definition good_light (L : TrafficLight) : Prop :=
  (0 < t_green L)%Q /\ (0 < t_yellow L)%Q /\ (0 < t_red L)%Q.



End ExactVocabulary.

(** *** A configuration that never terminates

    One lane whose light starts GREEN with one-second phases, one vehicle
    1.5 m from the line at 0.75 m/s, a stop offset of 2 m, [dt = 1]: from
    the stop offset the vehicle needs three ticks to the line, and the
    third tick after each release is a RED one.  Every number involved is
    binary, so the two models of [double] compute the same run. *)

Module SlowVehicle.

Section Generic.

Context {D : Double}.

Definition dt : double := of_int 1.
Definition pace : double := ddiv (of_int 3) (of_int 4).

Definition light (st : LightState) : TrafficLight :=
  mkTrafficLight 0 st (of_int 0) (of_int 1) (of_int 1) (of_int 1).

Definition crossing (st : LightState) : Intersection :=
  mkIntersection 1 1 (of_int 2) [light st].

Definition car (w : bool) (p tw : double) : Vehicle :=
  mkVehicle 0 0 p pace w tw 0 false.

Definition X0 : Intersection := crossing GREEN.
Definition V0 : list Vehicle :=
  [car false (ddiv (of_int 3) (of_int 2)) (of_int 0)].

(** The position one tick further on. *)
Definition on (p : double) : double := dsub p (dmul pace dt).

(** The light phase, waiting flag and position at the tick boundaries. *)
Definition orbit : list (LightState * bool * double) :=
  [ (GREEN, false, ddiv (of_int 3) (of_int 2));
    (YELLOW, false, on (ddiv (of_int 3) (of_int 2)));
    (RED, true, of_int 2);
    (GREEN, false, on (of_int 2));
    (YELLOW, false, on (on (of_int 2))) ].

Definition on_orbit (X : Intersection) (v : Vehicle) : Prop :=
  exists st w p tw, X = crossing st /\ v = car w p tw /\ In (st, w, p) orbit.

(** The comparisons that the run makes, with their outcomes. *)
Definition comparisons : Prop :=
  dge (dadd (of_int 0) dt) (of_int 1) = true
  /\ dle (on (ddiv (of_int 3) (of_int 2))) (of_int 0) = false
  /\ dle (on (on (ddiv (of_int 3) (of_int 2)))) (of_int 0) = true
  /\ dle (on (of_int 2)) (of_int 0) = false
  /\ dle (on (on (of_int 2))) (of_int 0) = false
  /\ dle (on (on (on (of_int 2)))) (of_int 0) = true.

End Generic.

End SlowVehicle.

(** *** Sample data

    The two scenarios of the specification, a generator for [rand()] and
    a small run, used to exercise the properties on concrete inputs. *)

Module Scenario.

Section Generic.

Context {D : Double}.

(** An intersection of one lane: its light, in phase [st], with durations
    green 12 s, yellow 3 s, red 15 s, and the stop offset. *)
Definition light (st : LightState) : TrafficLight :=
  mkTrafficLight 0 st (of_int 0) (of_int 12) (of_int 3) (of_int 15).

Definition crossing (st : LightState) (stop : Z) : Intersection :=
  mkIntersection 1 1 (of_int stop) [light st].

(** 5 m from the line at 5 m/s. *)
Definition arriving : Vehicle :=
  mkVehicle 0 0 (of_int 5) (of_int 5) false (of_int 0) 0 false.

(** 3 m from the line at 3 m/s. *)
Definition approaching : Vehicle :=
  mkVehicle 0 0 (of_int 3) (of_int 3) false (of_int 0) 0 false.

(** Held at the stop offset, having waited one second. *)
Definition held : Vehicle :=
  mkVehicle 0 0 (of_int 2) (of_int 3) true (of_int 1) 0 false.

(** A vehicle at the stop offset whose [finished] flag and [waiting] flag
    are both set, having waited one second.  (No call of [move_vehicle]
    leaves a vehicle so; a caller may pass one.) *)
Definition stale : Vehicle :=
  mkVehicle 0 0 (of_int 2) (of_int 3) true (of_int 1) 1 true.

(** A light entering GREEN with one-second phases, and a tick of a tenth
    of a second. *)
Definition quick : TrafficLight :=
  mkTrafficLight 0 GREEN (of_int 0) (of_int 1) (of_int 1) (of_int 1).

Definition tenth : double := ddiv (of_int 1) (of_int 10).

End Generic.

Definition RAND_MAX : Z := 2147483647.

(** A linear congruential generator in the style of the C library's. *)
Definition rand (seed : Z) (k : nat) : Z :=
  (seed + 1103515245 * Z.of_nat k + 12345) mod 2147483648.

End Scenario.

(** ** The work-sharing loops, their iterations in any order *)

(** The iterations of a loop body executed in the order of a list of
    indices. *)
Fixpoint iterate {S : Type} (body : Z -> S -> option S) (order : list Z)
    (s : S) : option S :=
  match order with
  | [] => Some s
  | i :: rest =>
      match body i s with
      | Some s' => iterate body rest s'
      | None => None
      end
  end.

(** The indices [i], [i + 1], ... of [n] iterations of a counted loop. *)
Fixpoint indices (n : nat) (i : Z) : list Z :=
  match n with
  | O => []
  | S n' => i :: indices n' (i + 1)
  end.

Section TickInOrder.

Context {D : Double}.

(** One iteration of the [while] loop of [run_simulation], the iterations
    of its three [parallel for] loops executed in the orders [ol] (the
    lights), [oc] (the crossing flags) and [ov] (the vehicles). *)
Definition tick_in_order (ol oc ov : list Z) (num_vehicles : Z) (dt : double)
    (s : Sim) : option Sim :=
  let X := isect s in
  match c_for (num_lights X) (count_green X) 0 with
  | None => None
  | Some greens_now =>
      let threads := choose_threads (nthreads_var s) num_vehicles greens_now in
      let nthreads_var := threads in
      match iterate (light_phase dt) ol (lights X) with
      | None => None
      | Some ls =>
          let X := mkIntersection (num_lanes X) (num_lights X)
                     (stop_distance X) ls in
          match iterate reset_phase oc (crossed_now s) with
          | None => None
          | Some cn =>
              match iterate (motion_phase X dt) ov (vehicles s, cn, 0) with
              | None => None
              | Some (V, cn, crossed_step) =>
                  Some (mkSim X V cn
                          (Int32.add (total_crossed s) crossed_step)
                          (Int32.add (step s) 1)
                          (dadd (sim_time s) dt)
                          threads nthreads_var)
              end
          end
      end
  end.

End TickInOrder.

(** ** What the program prints *)

(** [static inline const char* state_to_str(LightState s)] *)
Definition state_to_str (s : LightState) : string :=
  if LightState_eqb s GREEN then "V"%string
  else if LightState_eqb s YELLOW then "A"%string else "R"%string.

Section Output.

Context {D : Double}.

(** The lines of the output, one constructor for each [printf] of the
    program, with the arguments of the call. *)
Inductive Line : Type :=
  (** ["OpenMP: max threads disponibles: %d\n"] *)
  | max_threads_line (m : Z)
  (** ["\nResumen de configuración:\n"] *)
  | configuration_title
  (** ["Vehículo %d - Carril: %d, Velocidad: %.2f m/s, Posición inicial:
      %.2f m\n"] *)
  | configuration_vehicle (id lane : Z) (v p : double)
  (** ["Semáforo %d - Estado inicial: %s, Tiempos: R: %.0fs, V: %.0fs,
      A: %.0fs\n"] *)
  | configuration_light (i : Z) (st : string) (r g y : double)
  (** ["\n"] *)
  | blank_line
  (** ["Iteración %d (t=%.0fs):\n"] *)
  | state_title (k : Z) (t : double)
  (** ["Vehículo %d - Carril: %d, Posición: 0 (CRUZÓ en esta
      iteración)\n"] *)
  | vehicle_crossed_now (id lane : Z)
  (** ["Vehículo %d - Carril: %d, Posición: 0 (YA CRUZÓ)\n"] *)
  | vehicle_already_crossed (id lane : Z)
  (** ["Vehículo %d - Carril: %d, Posición: %.2f%s\n"] *)
  | vehicle_position (id lane : Z) (p : double) (suffix : string)
  (** ["Semáforo %d - Estado: %s, Tiempo en estado: %.0fs\n"] *)
  | light_line (i : Z) (st : string) (t : double)
  (** ["Estado de hilos -> objetivo=%d, max=%d\n\n"] *)
  | threads_line (target m : Z)
  (** ["\n--- Resumen (OpenMP) ---\n"] *)
  | summary_title
  (** ["Vehículos: %d, Pasos ejecutados: %d, dt=%.1f s\n"] *)
  | summary_vehicles (n steps : Z) (dt : double)
  (** ["Vehículos que cruzaron: %d/%d\n"] *)
  | summary_crossed (crossed n : Z)
  (** ["Cruces totales por vehículo (suma de V.crossings): %d\n"] *)
  | summary_crossings (total : Z)
  (** ["Espera promedio por vehículo: %.2f s\n"] *)
  | summary_avg_wait (w : double)
  (** ["Tiempo total SIMULADO: %.0f s\n"] *)
  | summary_sim_time (t : double)
  (** ["Tiempo de EJECUCIÓN (wall clock): %.3f s\n"] *)
  | summary_wall_clock (t : double).

(** The bodies of the two loops of [print_configuration], the output so
    far threaded through. *)
Definition print_configuration_vehicle (V : list Vehicle) (i : Z)
    (out : list Line) : option (list Line) :=
  match aget V i with
  | Some v =>
      Some (out ++ [configuration_vehicle (vehicle_id v) (lane v) (speed v)
                      (pos v)])
  | None => None
  end.

Definition print_configuration_light (X : Intersection) (i : Z)
    (out : list Line) : option (list Line) :=
  match aget (lights X) i with
  | Some L =>
      Some (out ++ [configuration_light i (state_to_str (state L))
                      (t_red L) (t_green L) (t_yellow L)])
  | None => None
  end.

(** [void print_configuration(const Vehicle* V, int N,
    const Intersection* X)] *)
Definition print_configuration (V : list Vehicle) (N : Z) (X : Intersection)
    : option (list Line) :=
  match c_for N (print_configuration_vehicle V) [configuration_title] with
  | None => None
  | Some out =>
      match c_for (num_lights X) (print_configuration_light X) out with
      | None => None
      | Some out => Some (out ++ [blank_line])
      end
  end.

(** The line of one vehicle in [print_state]; [flag] is the value of
    [crossed_now && crossed_now[i]]. *)
Definition vehicle_line (v : Vehicle) (flag : bool) : Line :=
  if flag then vehicle_crossed_now (vehicle_id v) (lane v)
  else if finished v then vehicle_already_crossed (vehicle_id v) (lane v)
  else vehicle_position (vehicle_id v) (lane v) (pos v)
         (if waiting v then " (ESPERANDO)"%string else ""%string).

(** The bodies of the two loops of [print_state]; the pointer
    [crossed_now] may be null. *)
Definition print_state_vehicle (V : list Vehicle)
    (crossed_now : option (list Z)) (i : Z) (out : list Line)
    : option (list Line) :=
  let flag :=
    match crossed_now with
    | None => Some false
    | Some cn =>
        match aget cn i with
        | Some c => Some (negb (c =? 0))
        | None => None
        end
    end in
  match flag, aget V i with
  | Some f, Some v => Some (out ++ [vehicle_line v f])
  | _, _ => None
  end.

Definition print_state_light (X : Intersection) (i : Z) (out : list Line)
    : option (list Line) :=
  match aget (lights X) i with
  | Some L =>
      Some (out ++ [light_line i (state_to_str (state L)) (time_in_state L)])
  | None => None
  end.

(** [void print_state(int step, double sim_time, const Vehicle* V,
    const int* crossed_now, int N, const Intersection* X)] *)
Definition print_state (k : Z) (t : double) (V : list Vehicle)
    (crossed_now : option (list Z)) (N : Z) (X : Intersection)
    : option (list Line) :=
  match c_for N (print_state_vehicle V crossed_now) [state_title k t] with
  | None => None
  | Some out =>
      match c_for (num_lights X) (print_state_light X) out with
      | None => None
      | Some out => Some (out ++ [blank_line])
      end
  end.

(** What the end of a tick prints:
    [if (print_every > 0 && (step % print_every) == 0) { print_state(...);
     printf("Estado de hilos ...", threads, omp_get_max_threads()); }] *)
Definition print_tick (num_vehicles print_every : Z) (s : Sim)
    : option (list Line) :=
  if (0 <? print_every) && (Int32.rem (step s) print_every =? 0) then
    match print_state (step s) (sim_time s) (vehicles s)
            (Some (crossed_now s)) num_vehicles (isect s) with
    | Some out => Some (out ++ [threads_line (threads s) (nthreads_var s)])
    | None => None
    end
  else Some [].

(** The [while] loop of [run_simulation] with what it prints. *)
Fixpoint run_loop_out (fuel : nat) (num_vehicles print_every : Z)
    (dt : double) (s : Sim) (out : list Line) : outcome (Sim * list Line) :=
  if total_crossed s <? num_vehicles then
    match fuel with
    | O => OutOfFuel
    | S fuel' =>
        match tick num_vehicles dt s with
        | Some s' =>
            match print_tick num_vehicles print_every s' with
            | Some ls =>
                run_loop_out fuel' num_vehicles print_every dt s' (out ++ ls)
            | None => Undefined
            end
        | None => Undefined
        end
    end
  else Returned (s, out).

Variables max_threads RAND_MAX : Z.
Variable rand : Z -> nat -> Z.

(** [run_simulation] with its output; [wall] is the difference of the two
    readings of the wall clock. *)
Definition run_simulation_out (fuel : nat) (num_vehicles print_every : Z)
    (dt : double) (seed : Z) (wall : double)
    : outcome (Summary * list Line) :=
  let s0 := init_sim max_threads RAND_MAX rand num_vehicles seed in
  match print_configuration (vehicles s0) num_vehicles (isect s0) with
  | None => Undefined
  | Some out0 =>
      match run_loop_out fuel num_vehicles print_every dt s0 out0 with
      | Returned (s, out) =>
          match c_for num_vehicles (metrics (vehicles s)) (of_int 0, 0) with
          | Some (avg_wait, total_crossings) =>
              let avg_wait := ddiv avg_wait (of_int num_vehicles) in
              Returned
                (mkSummary num_vehicles (step s) (total_crossed s)
                   total_crossings avg_wait (sim_time s),
                 out ++ [summary_title;
                         summary_vehicles num_vehicles (step s) dt;
                         summary_crossed (total_crossed s) num_vehicles;
                         summary_crossings total_crossings;
                         summary_avg_wait avg_wait;
                         summary_sim_time (sim_time s);
                         summary_wall_clock wall])
          | None => Undefined
          end
      | Undefined => Undefined
      | OutOfFuel => OutOfFuel
      end
  end.

(** [main] with its output. *)
Definition main_out (fuel : nat) (args : list Z) (now : Z) (wall : double)
    : outcome (list Line * Z) :=
  let N := nth 0 args 8 in
  let print_every := nth 1 args 1 in
  let dt := of_int 1 in
  let seed := nth 2 args now in
  match run_simulation_out fuel N print_every dt seed wall with
  | Returned (_, out) => Returned (max_threads_line max_threads :: out, 0)
  | Undefined => Undefined
  | OutOfFuel => OutOfFuel
  end.

(** The number of lines of an output that report the vehicle [i] as
    crossing, and the steps of the states reported. *)
Definition crossing_reports (i : Z) (out : list Line) : Z :=
  Z.of_nat (length (filter (fun l => match l with
                                     | vehicle_crossed_now id _ => id =? i
                                     | _ => false
                                     end) out)).

Definition reported_steps (out : list Line) : list Z :=
  flat_map (fun l => match l with state_title k _ => [k] | _ => [] end) out.

End Output.

(** ** Ticks that compute exactly

    The arithmetic of [double] rounds; the statements about durations and
    distances hold of the runs in which it does not.  A valuation [val]
    gives the rational number that a [double] stands for; a tick is exact
    if the state it computes stands for the state that the same tick
    computes in exact arithmetic from the same numbers. *)



Section Exactness.

#[local] Existing Instance Exact.rational.





End Exactness.

Section Valuation.

Context {D : Double}.
Variable val : double -> Q.







End Valuation.

(** * Properties *)

(** ** The two models of [double] are ordered *)

Lemma binary64_ltb_not_leb (a b : spec_float) :
  SFltb a b = true -> SFleb b a = false.
Proof.
  unfold SFltb, SFleb.
  destruct a as [sa|sa| |sa ma ea], b as [sb|sb| |sb mb eb]; simpl;
    try discriminate; try reflexivity;
    try (destruct sa; simpl; try discriminate; reflexivity);
    try (destruct sb; simpl; try discriminate; reflexivity);
    try (destruct sa, sb; simpl; try discriminate; reflexivity).
  change (Pos.compare_cont Eq ma mb) with (ma ?= mb)%positive.
  change (Pos.compare_cont Eq mb ma) with (mb ?= ma)%positive.
  rewrite (Z.compare_antisym ea eb), (Pos.compare_antisym ma mb).
  destruct sa, sb; simpl; try discriminate; try reflexivity;
    destruct (ea ?= eb); simpl; try discriminate; try reflexivity;
    destruct (ma ?= mb)%positive; simpl; try discriminate; reflexivity.
Qed.

Lemma binary64_ordered : OrderedDouble IEEE.binary64.
Proof. constructor. exact binary64_ltb_not_leb. Qed.

Lemma rational_ordered : OrderedDouble Exact.rational.
Proof.
  constructor. intros a b. cbn. unfold Exact.ltb.
  now destruct (Qle_bool b a).
Qed.

(** ** One call of the light state machine, one call of the motion rule *)

Section OneCall.

Context {D : Double}.

(** A change of phase leaves the time in state at exactly [0.0]. *)
Lemma entry_resets (L : TrafficLight) (dt : double) :
  state (update_traffic_light L dt) <> state L ->
  time_in_state (update_traffic_light L dt) = of_int 0.
Proof.
  destruct L as [i s t g y r]; unfold update_traffic_light; cbn.
  destruct s; cbn;
    match goal with |- context [dge ?a ?b] => destruct (dge a b) end;
    cbn; congruence.
Qed.

Lemma go_spec (s : LightState) :
  go s = match s with RED => false | GREEN | YELLOW => true end.
Proof. now destruct s. Qed.

(** C2.  [update_traffic_light L dt] first adds [dt] to the time in state,
    [t = time_in_state L + dt], and then compares [t] with the duration
    of the current phase: the light moves to the next phase of the cycle
    GREEN, YELLOW, RED, GREEN with its time reset to exactly [0.0] if and
    only if [t >= duration]; otherwise the phase is kept and the time in
    state is [t].  Nothing of the overshoot [t - duration] is kept.  The
    identity and the three durations never change.  The update is a
    total function of [L] and [dt]; it holds for every [dt], positive or
    not. *)
Theorem update_traffic_light_spec (L : TrafficLight) (dt : double) :
  let t := dadd (time_in_state L) dt in
  let L' := update_traffic_light L dt in
  (state L = GREEN -> (state L' = YELLOW <-> dge t (t_green L) = true))
  /\ (state L = YELLOW -> (state L' = RED <-> dge t (t_yellow L) = true))
  /\ (state L = RED -> (state L' = GREEN <-> dge t (t_red L) = true))
  /\ (dge t (duration L) = true ->
      state L' = next_phase (state L) /\ time_in_state L' = of_int 0)
  /\ (dge t (duration L) = false ->
      state L' = state L /\ time_in_state L' = t)
  /\ light_id L' = light_id L
  /\ t_green L' = t_green L /\ t_yellow L' = t_yellow L /\ t_red L' = t_red L.
Proof.
  destruct L as [i s t0 g y r]; unfold update_traffic_light, duration; cbn.
  destruct s; cbn.
  - destruct (dge (dadd t0 dt) r) eqn:E; cbn;
      repeat split; intros; try congruence; try discriminate.
  - destruct (dge (dadd t0 dt) g) eqn:E; cbn;
      repeat split; intros; try congruence; try discriminate.
  - destruct (dge (dadd t0 dt) y) eqn:E; cbn;
      repeat split; intros; try congruence; try discriminate.
Qed.

(** C1.  For a vehicle that has not finished, whose lane's light [L] lies
    inside the lights array, [move_vehicle V X dt] is the four steps of
    the motion model in order.  (1) The waiting flag [w] is cleared when
    the light is GREEN or YELLOW.  (2) If [w] is clear the position
    becomes [p = pos - speed * dt], else it stays.  (3) If [p <= 0]: under
    GREEN or YELLOW the vehicle is finished, with crossings 1 and position
    exactly 0, and the call returns 1; under RED the position is the stop
    offset and the waiting flag is set.  (4) If the vehicle is waiting
    after that, its waiting time grows by exactly [dt].  Whenever the
    vehicle does not cross, the call returns 0.  It holds for every [dt],
    positive or not. *)
Theorem move_vehicle_steps (V : Vehicle) (X : Intersection)
    (L : TrafficLight) (dt : double) :
  finished V = false ->
  aget (lights X) (lane V) = Some L ->
  let w := match state L with RED => waiting V | GREEN | YELLOW => false end in
  let p := if w then pos V else dsub (pos V) (dmul (speed V) dt) in
  move_vehicle V X dt =
    if dle p (of_int 0) then
      match state L with
      | GREEN | YELLOW =>
          Some (mkVehicle (vehicle_id V) (lane V) (of_int 0) (speed V) w
                  (total_wait V) 1 true, 1)
      | RED =>
          Some (mkVehicle (vehicle_id V) (lane V) (stop_distance X) (speed V)
                  true (dadd (total_wait V) dt) (crossings V) false, 0)
      end
    else
      Some (mkVehicle (vehicle_id V) (lane V) p (speed V) w
              (if w then dadd (total_wait V) dt else total_wait V)
              (crossings V) false, 0).
Proof.
  intros Hf HL. unfold move_vehicle. rewrite Hf, HL.
  destruct V as [i l p0 v w0 tw c f]; cbn in *; subst f.
  rewrite go_spec.
  destruct (state L), w0; cbn;
    match goal with
    | |- context [dle ?a ?b] => destruct (dle a b) eqn:E; cbn; try rewrite E
    end; reflexivity.
Qed.

End OneCall.

(** ** Arrays and counted loops *)

Section Arrays.

Context {A : Type}.

Lemma aget_app (pre : list A) (x : A) (rest : list A) :
  aget (pre ++ x :: rest) (Z.of_nat (length pre)) = Some x.
Proof.
  unfold aget.
  destruct (Z.ltb_spec (Z.of_nat (length pre)) 0) as [H|_]; [lia|].
  rewrite Nat2Z.id, nth_error_app2 by lia.
  now rewrite Nat.sub_diag.
Qed.

Lemma upd_app (pre : list A) (x y : A) (rest : list A) :
  upd (pre ++ x :: rest) (length pre) y = pre ++ y :: rest.
Proof. induction pre as [|a pre IH]; cbn; [reflexivity | now rewrite IH]. Qed.

Lemma aset_app (pre : list A) (x y : A) (rest : list A) :
  aset (pre ++ x :: rest) (Z.of_nat (length pre)) y = Some (pre ++ y :: rest).
Proof.
  unfold aset.
  destruct (Z.leb_spec 0 (Z.of_nat (length pre))) as [_|H]; [|lia].
  destruct (Z.ltb_spec (Z.of_nat (length pre))
              (Z.of_nat (length (pre ++ x :: rest)))) as [_|H]; cbn.
  - now rewrite Nat2Z.id, upd_app.
  - rewrite length_app in H. cbn in H. lia.
Qed.

Lemma aget_in_range (a : list A) (i : Z) :
  0 <= i < Z.of_nat (length a) -> exists x, aget a i = Some x.
Proof.
  intros H. unfold aget.
  destruct (Z.ltb_spec i 0) as [H0|_]; [lia|].
  destruct (nth_error a (Z.to_nat i)) eqn:E; [eauto|].
  apply nth_error_None in E. lia.
Qed.


(** A loop that rewrites the elements of an array one by one is [map]. *)
Lemma for_loop_map (body : Z -> list A -> option (list A)) (f : A -> A) :
  (forall pre x rest,
      body (Z.of_nat (length pre)) (pre ++ x :: rest)
      = Some (pre ++ f x :: rest)) ->
  forall rest pre,
    for_loop (length rest) (Z.of_nat (length pre)) body (pre ++ rest)
    = Some (pre ++ map f rest).
Proof.
  intros Hb. induction rest as [|x rest IH]; intros pre; cbn.
  - reflexivity.
  - rewrite Hb.
    replace (Z.of_nat (length pre) + 1) with (Z.of_nat (length (pre ++ [f x])))
      by (rewrite length_app; cbn; lia).
    replace (pre ++ f x :: rest) with ((pre ++ [f x]) ++ rest)
      by (now rewrite <- app_assoc).
    rewrite IH. now rewrite <- app_assoc.
Qed.

(** A loop that reads the elements one by one into an accumulator is
    [fold_left]. *)
Lemma for_loop_fold {B : Type} (a : list A) (body : Z -> B -> option B)
    (f : B -> A -> B) :
  (forall i x acc, aget a i = Some x -> body i acc = Some (f acc x)) ->
  forall rest pre acc,
    a = pre ++ rest ->
    for_loop (length rest) (Z.of_nat (length pre)) body acc
    = Some (fold_left f rest acc).
Proof.
  intros Hb. induction rest as [|x rest IH]; intros pre acc Ha; cbn.
  - reflexivity.
  - rewrite (Hb _ x) by (subst a; apply aget_app).
    replace (Z.of_nat (length pre) + 1) with (Z.of_nat (length (pre ++ [x])))
      by (rewrite length_app; cbn; lia).
    apply IH. now rewrite <- app_assoc.
Qed.

End Arrays.

(** ** The tick in closed form *)

Section Tick.

Context {D : Double}.
Variable max_threads : Z.

Lemma move_vehicle_defined (v : Vehicle) (X : Intersection) (dt : double) :
  0 <= lane v < Z.of_nat (length (lights X)) ->
  move_vehicle v X dt = Some (step_vehicle X dt v).
Proof.
  intros H. unfold step_vehicle, move_vehicle.
  destruct (finished v); [reflexivity|].
  destruct (aget_in_range (lights X) (lane v) H) as [L ->].
  destruct (dle _ _); [destruct (go _)|]; reflexivity.
Qed.

Lemma motion_loop (X : Intersection) (dt : double) :
  forall rest pre cpre cs,
    length cpre = length pre ->
    Forall (fun v => 0 <= lane v < Z.of_nat (length (lights X))) rest ->
    for_loop (length rest) (Z.of_nat (length pre)) (motion_phase X dt)
      (pre ++ rest, cpre ++ repeat 0 (length rest), cs)
    = Some (pre ++ map fst (map (step_vehicle X dt) rest),
            cpre ++ map (fun p => if snd p =? 0 then 0 else 1)
                      (map (step_vehicle X dt) rest),
            fold_left Int32.add (map snd (map (step_vehicle X dt) rest)) cs).
Proof.
  induction rest as [|v rest IH]; intros pre cpre cs Hl Hlanes.
  - reflexivity.
  - inversion Hlanes as [|? ? Hv Hrest]; subst.
    cbn [length for_loop repeat map fold_left].
    unfold motion_phase at 1.
    rewrite aget_app, (move_vehicle_defined _ _ _ Hv).
    destruct (step_vehicle X dt v) as [v' c] eqn:Ev.
    rewrite aset_app.
    assert (Hcn : (if c =? 0 then Some (cpre ++ 0 :: repeat 0 (length rest))
                   else aset (cpre ++ 0 :: repeat 0 (length rest))
                          (Z.of_nat (length pre)) 1)
                  = Some (cpre ++ (if c =? 0 then 0 else 1)
                            :: repeat 0 (length rest))).
    { destruct (c =? 0); [reflexivity|]. rewrite <- Hl. apply aset_app. }
    rewrite Hcn.
    replace (Z.of_nat (length pre) + 1)
      with (Z.of_nat (length (pre ++ [v'])))
      by (rewrite length_app; cbn; lia).
    replace (pre ++ v' :: rest) with ((pre ++ [v']) ++ rest)
      by (now rewrite <- app_assoc).
    replace (cpre ++ (if c =? 0 then 0 else 1) :: repeat 0 (length rest))
      with ((cpre ++ [if c =? 0 then 0 else 1]) ++ repeat 0 (length rest))
      by (now rewrite <- app_assoc).
    rewrite IH; [| rewrite !length_app; cbn; lia | assumption].
    cbn [fst snd]. now rewrite <- !app_assoc.
Qed.

Lemma light_loop (dt : double) (ls : list TrafficLight) :
  c_for (Z.of_nat (length ls)) (light_phase dt) ls
  = Some (map (fun L => update_traffic_light L dt) ls).
Proof.
  unfold c_for. rewrite Nat2Z.id.
  apply (for_loop_map (light_phase dt)
           (fun L => update_traffic_light L dt)) with (pre := []).
  intros pre x rest. unfold light_phase.
  now rewrite aget_app, aset_app.
Qed.

Lemma green_loop (X : Intersection) :
  c_for (Z.of_nat (length (lights X))) (count_green X) 0
  = Some (greens (lights X)).
Proof.
  unfold c_for, greens. rewrite Nat2Z.id.
  apply (for_loop_fold (lights X) (count_green X)) with (pre := []);
    [|reflexivity].
  intros i L acc H. unfold count_green. now rewrite H.
Qed.

Lemma reset_loop (cn : list Z) :
  c_for (Z.of_nat (length cn)) reset_phase cn = Some (repeat 0 (length cn)).
Proof.
  unfold c_for. rewrite Nat2Z.id, <- (map_const 0 cn).
  apply (for_loop_map reset_phase (fun _ => 0)) with (pre := []).
  intros pre x rest. apply aset_app.
Qed.

(** On a well-formed state a tick is defined, and is [tick_result]. *)
Lemma tick_closed_form (N : Z) (dt : double) (s : Sim) :
  wf_sim N s -> tick N dt s = Some (tick_result N dt s).
Proof.
  intros (Hnl & HV & Hcn & Hlanes). unfold tick.
  rewrite Hnl, green_loop, light_loop.
  assert (HN : c_for N reset_phase (crossed_now s)
               = Some (repeat 0 (length (vehicles s)))).
  { unfold c_for. rewrite <- Hcn. rewrite <- (Nat2Z.id (length (crossed_now s))) at 1.
    fold (c_for (Z.of_nat (length (crossed_now s))) reset_phase (crossed_now s)).
    rewrite reset_loop. now rewrite Hcn, HV. }
  rewrite HN. unfold c_for. rewrite <- HV.
  pose proof (motion_loop
                (mkIntersection (num_lanes (isect s))
                   (Z.of_nat (length (lights (isect s))))
                   (stop_distance (isect s))
                   (map (fun L => update_traffic_light L dt) (lights (isect s))))
                dt (vehicles s) [] [] 0 eq_refl) as Hm.
  cbn [app length] in Hm. change (Z.of_nat 0) with 0 in Hm.
  rewrite Hm.
  - unfold tick_result, lights_after. now rewrite Hnl.
  - cbn [lights]. rewrite length_map.
    rewrite Hnl in Hlanes. exact Hlanes.
Qed.

End Tick.

(** ** What one call of [move_vehicle] preserves *)

Section StepFacts.

Context {D : Double}.

(** Case analysis of a call: the flags of the vehicle, the light of its
    lane, and the comparison with the stop line. *)
Ltac move_cases v :=
  unfold step_vehicle, move_vehicle, count_wait;
  destruct v as [? ? ? ? w ? ? f]; cbn;
  destruct f; cbn; try (intuition congruence);
  match goal with
  | |- context [aget ?a ?k] =>
      let L := fresh "L" in
      destruct (aget a k) as [L|]; cbn; try (intuition congruence);
      rewrite ?go_spec; destruct (state L), w; cbn
  end;
  repeat match goal with
    | |- context [dle ?a ?b] => destruct (dle a b); cbn
    end; try (intuition congruence).

Lemma step_vehicle_finished (X : Intersection) (dt : double) (v : Vehicle) :
  finished v = true -> step_vehicle X dt v = (v, 0).
Proof. intros H. unfold step_vehicle, move_vehicle. now rewrite H. Qed.

Lemma step_vehicle_lane (X : Intersection) (dt : double) (v : Vehicle) :
  lane (fst (step_vehicle X dt v)) = lane v.
Proof. move_cases v. Qed.

Lemma step_vehicle_speed (X : Intersection) (dt : double) (v : Vehicle) :
  speed (fst (step_vehicle X dt v)) = speed v.
Proof. move_cases v. Qed.

(** The returned flag is 1 exactly when the call sets [finished]. *)
Lemma step_vehicle_flag (X : Intersection) (dt : double) (v : Vehicle) :
  snd (step_vehicle X dt v)
  = Z.b2z (finished (fst (step_vehicle X dt v))) - Z.b2z (finished v)
  /\ (finished v = true -> finished (fst (step_vehicle X dt v)) = true).
Proof. move_cases v. Qed.

Lemma step_vehicle_one_shot (X : Intersection) (dt : double) (v : Vehicle) :
  one_shot v -> one_shot (fst (step_vehicle X dt v)).
Proof. unfold one_shot. move_cases v. Qed.

End StepFacts.

(** ** Invariants of the tick loop *)

Lemma wrap_in_range (z : Z) : Int32.in_range z -> Int32.wrap z = z.
Proof.
  unfold Int32.in_range, Int32.INT_MIN, Int32.INT_MAX, Int32.wrap. intros H.
  rewrite Z.mod_small; lia.
Qed.

Section Invariants.

Context {D : Double}.
Variables max_threads RAND_MAX : Z.
Variable rand : Z -> nat -> Z.

Lemma count_finished_cons (v : Vehicle) (V : list Vehicle) :
  count_finished (v :: V) = Z.b2z (finished v) + count_finished V.
Proof.
  unfold count_finished. cbn. destruct (finished v); cbn [length Z.b2z]; lia.
Qed.

Lemma count_finished_bounds (V : list Vehicle) :
  0 <= count_finished V <= Z.of_nat (length V).
Proof.
  induction V as [|v V IH]; [cbn; lia|].
  rewrite count_finished_cons. cbn [length]. rewrite Nat2Z.inj_succ.
  destruct (finished v); cbn [Z.b2z]; lia.
Qed.

(** The reduction of the motion loop counts the vehicles that finish in
    the tick. *)
Lemma motion_count (X : Intersection) (dt : double) :
  forall V acc,
    0 <= acc ->
    acc + Z.of_nat (length V) <= Int32.INT_MAX ->
    let V' := map fst (map (step_vehicle X dt) V) in
    fold_left Int32.add (map snd (map (step_vehicle X dt) V)) acc
    = acc + count_finished V' - count_finished V
    /\ count_finished V <= count_finished V'.
Proof.
  induction V as [|v V IH]; intros acc Hacc Hmax; cbn.
  - unfold count_finished; cbn. split; lia.
  - rewrite !count_finished_cons.
    destruct (step_vehicle_flag X dt v) as [Hc Hmono].
    cbn [length] in Hmax.
    assert (Hb : 0 <= snd (step_vehicle X dt v) <= 1).
    { rewrite Hc. destruct (finished v); [rewrite Hmono by reflexivity|];
        destruct (finished (fst (step_vehicle X dt v))); cbn; lia. }
    unfold Int32.add at 2. rewrite wrap_in_range
      by (unfold Int32.in_range, Int32.INT_MIN; lia).
    destruct (IH (acc + snd (step_vehicle X dt v))) as [IH1 IH2]; [lia|lia|].
    rewrite IH1. lia.
Qed.

Lemma tick_result_wf (N : Z) (dt : double) (s : Sim) :
  wf_sim N s -> wf_sim N (tick_result N dt s).
Proof.
  intros (Hnl & HV & Hcn & Hlanes). unfold wf_sim, tick_result; cbn.
  rewrite !length_map. repeat split; try assumption.
  rewrite map_map. apply Forall_map.
  eapply Forall_impl; [|exact Hlanes].
  intros v Hv. cbn. now rewrite step_vehicle_lane.
Qed.

Lemma init_lights_length (n : nat) (i seed : Z) (k : nat) :
  length (init_lights RAND_MAX rand n i seed k) = n.
Proof.
  revert i k. induction n as [|n IH]; intros i k; cbn; [reflexivity|].
  now rewrite IH.
Qed.

(** The vehicles that [init_vehicles] creates: in lanes 0 to 3, neither
    waiting nor finished, with no crossing. *)
Lemma init_vehicles_from_fresh (n : nat) (i seed : Z) (k : nat) :
  0 <= i ->
  length (init_vehicles_from RAND_MAX rand n i seed k) = n
  /\ Forall (fun v => 0 <= lane v < 4 /\ finished v = false
                      /\ waiting v = false /\ crossings v = 0)
       (init_vehicles_from RAND_MAX rand n i seed k).
Proof.
  revert i k. induction n as [|n IH]; intros i k Hi; cbn; [now split|].
  destruct (IH (i + 1) (k + 2)%nat) as [Hl Hf]; [lia|].
  split; [now rewrite Hl|].
  constructor; [|exact Hf]. cbn. unfold Int32.rem.
  pose proof (Z.rem_bound_pos i 4 Hi). intuition lia.
Qed.

Lemma init_sim_wf (N seed : Z) : wf_sim N (init_sim max_threads RAND_MAX rand N seed).
Proof.
  unfold wf_sim, init_sim, init_intersection, init_vehicles; cbn.
  destruct (init_vehicles_from_fresh (Z.to_nat N) 0 seed 12) as [Hl Hf];
    [lia|].
  rewrite repeat_length. repeat split; try assumption.
  eapply Forall_impl; [|exact Hf]. cbn. intuition lia.
Qed.

Lemma tick_result_inv (N : Z) (dt : double) (s : Sim) :
  0 <= N <= Int32.INT_MAX ->
  boundary_inv N s -> boundary_inv N (tick_result N dt s).
Proof.
  intros HN (Hwf & Htc). split.
  - now apply tick_result_wf.
  - unfold tick_result; cbn.
    destruct Hwf as (_ & HV & _ & _).
    destruct (motion_count (lights_after dt (isect s)) dt (vehicles s) 0)
      as [Hsum Hmono]; [lia | rewrite HV; lia |].
    cbn in Hsum. rewrite Hsum, Htc.
    pose proof (count_finished_bounds (vehicles s)).
    pose proof (count_finished_bounds
                  (map fst (map (step_vehicle (lights_after dt (isect s)) dt)
                              (vehicles s)))) as Hb.
    rewrite !length_map in Hb.
    unfold Int32.add. rewrite wrap_in_range; [lia|].
    unfold Int32.in_range, Int32.INT_MIN. lia.
Qed.

Lemma tick_result_one_shot (N : Z) (dt : double) (s : Sim) :
  Forall one_shot (vehicles s) ->
  Forall one_shot (vehicles (tick_result N dt s)).
Proof.
  intros Hone. unfold tick_result; cbn. rewrite map_map. apply Forall_map.
  eapply Forall_impl; [|exact Hone].
  intros v Hv. now apply step_vehicle_one_shot.
Qed.

Lemma init_vehicles_fresh (N seed : Z) :
  Forall (fun v => finished v = false /\ waiting v = false /\ crossings v = 0)
    (vehicles (init_sim max_threads RAND_MAX rand N seed)).
Proof.
  unfold init_sim, init_intersection, init_vehicles; cbn [vehicles].
  match goal with
  | |- context [init_vehicles_from _ _ _ _ _ ?k] =>
      destruct (init_vehicles_from_fresh (Z.to_nat N) 0 seed k) as [_ Hf];
        [lia|]
  end.
  eapply Forall_impl; [|exact Hf]. cbn. intuition.
Qed.

Lemma init_sim_inv (N seed : Z) :
  boundary_inv N (init_sim max_threads RAND_MAX rand N seed).
Proof.
  split; [apply init_sim_wf|].
  pose proof (init_vehicles_fresh N seed) as Hf.
  replace (total_crossed (init_sim max_threads RAND_MAX rand N seed)) with 0
    by reflexivity.
  unfold count_finished.
  replace (filter finished (vehicles (init_sim max_threads RAND_MAX rand N seed)))
    with (@nil Vehicle); [reflexivity|].
  symmetry. induction Hf as [|v V' (Hfin & _) _ IH]; cbn;
    [reflexivity | now rewrite Hfin].
Qed.

Lemma init_sim_one_shot (N seed : Z) :
  Forall one_shot (vehicles (init_sim max_threads RAND_MAX rand N seed)).
Proof.
  eapply Forall_impl; [|apply init_vehicles_fresh].
  intros v (Hfin & Hw & Hc).
  unfold one_shot. rewrite Hfin, Hc. split; [reflexivity|discriminate].
Qed.

Lemma reachable_wf (N : Z) (dt : double) (seed : Z) (s : Sim) :
  reachable max_threads RAND_MAX rand N dt seed s -> wf_sim N s.
Proof.
  intros H. induction H as [|s s' _ IH _ Ht].
  - apply init_sim_wf.
  - rewrite tick_closed_form in Ht by apply IH.
    injection Ht as <-. now apply tick_result_wf.
Qed.

Lemma reachable_one_shot (N : Z) (dt : double) (seed : Z) (s : Sim) :
  reachable max_threads RAND_MAX rand N dt seed s ->
  Forall one_shot (vehicles s).
Proof.
  intros H. induction H as [|s s' Hr IH _ Ht].
  - apply init_sim_one_shot.
  - rewrite tick_closed_form in Ht by (eapply reachable_wf; eassumption).
    injection Ht as <-. now apply tick_result_one_shot.
Qed.

Lemma reachable_inv (N : Z) (dt : double) (seed : Z) (s : Sim) :
  N <= Int32.INT_MAX ->
  reachable max_threads RAND_MAX rand N dt seed s -> boundary_inv N s.
Proof.
  intros HN H. induction H as [|s s' _ IH Hlt Ht].
  - apply init_sim_inv.
  - rewrite tick_closed_form in Ht by apply IH.
    injection Ht as <-. apply tick_result_inv; [|exact IH].
    destruct IH as [_ Htc].
    pose proof (count_finished_bounds (vehicles s)). lia.
Qed.

Lemma run_loop_reachable (N : Z) (dt : double) (seed : Z) :
  forall fuel s s',
    reachable max_threads RAND_MAX rand N dt seed s ->
    run_loop fuel N dt s = Returned s' ->
    reachable max_threads RAND_MAX rand N dt seed s'
    /\ N <= total_crossed s'.
Proof.
  induction fuel as [|fuel IH]; intros s s' Hr; cbn;
    destruct (Z.ltb_spec (total_crossed s) N) as [Hlt|Hge];
    try discriminate;
    try (intros [= <-]; now split).
  destruct (tick N dt s) as [s1|] eqn:Ht; [|discriminate].
  apply IH. now apply (reach_tick _ _ _ _ _ _ s s1).
Qed.

(** The state after [n] ticks is a state of the run if the loop runs that
    long. *)
Lemma reachable_tick_results (N : Z) (dt : double) (seed : Z) :
  forall n s,
    reachable max_threads RAND_MAX rand N dt seed s ->
    running N dt n s = true ->
    reachable max_threads RAND_MAX rand N dt seed (tick_results N dt n s).
Proof.
  induction n as [|n IH]; intros s Hr Hn; cbn [tick_results]; [exact Hr|].
  cbn [running] in Hn. apply andb_prop in Hn as [Hlt Hn].
  apply IH; [|exact Hn].
  apply (reach_tick _ _ _ _ _ _ s); [exact Hr | lia |].
  apply tick_closed_form. eapply reachable_wf. exact Hr.
Qed.

End Invariants.

(** ** Runs of several ticks *)

Section Runs.

Context {D : Double}.
Variable max_threads : Z.

Lemma tick_results_wf (N : Z) (dt : double) (n : nat) (s : Sim) :
  wf_sim N s -> wf_sim N (tick_results N dt n s).
Proof.
  revert s. induction n as [|n IH]; intros s H; cbn; [exact H|].
  apply IH. now apply tick_result_wf.
Qed.

Lemma tick_results_inv (N : Z) (dt : double) (n : nat) (s : Sim) :
  0 <= N <= Int32.INT_MAX ->
  boundary_inv N s -> boundary_inv N (tick_results N dt n s).
Proof.
  intros HN. revert s. induction n as [|n IH]; intros s H; cbn; [exact H|].
  apply IH. now apply tick_result_inv.
Qed.

Lemma ticks_closed_form (N : Z) (dt : double) (n : nat) (s : Sim) :
  wf_sim N s ->
  ticks N dt n s = Some (tick_results N dt n s).
Proof.
  revert s. induction n as [|n IH]; intros s H; cbn; [reflexivity|].
  rewrite tick_closed_form by exact H. apply IH. now apply tick_result_wf.
Qed.

Lemma tick_results_vehicles (N : Z) (dt : double) (n : nat) (s : Sim) :
  vehicles (tick_results N dt n s)
  = map (drive n (isect s) dt) (vehicles s)
  /\ isect (tick_results N dt n s)
     = lights_after_n n dt (isect s).
Proof.
  revert s. induction n as [|n IH]; intros s; cbn.
  - now rewrite map_id.
  - destruct (IH (tick_result N dt s)) as [-> ->].
    unfold tick_result; cbn. now rewrite !map_map.
Qed.

Lemma drive_finished (n : nat) (X : Intersection) (dt : double)
    (v : Vehicle) :
  finished v = true -> drive n X dt v = v.
Proof.
  revert X. induction n as [|n IH]; intros X H; cbn; [reflexivity|].
  rewrite step_vehicle_finished by exact H. now apply IH.
Qed.






(** The only way for the loop to go on is a count below the vehicle
    count: with a budget of [fuel] ticks it is still running exactly
    when the count is below [N] at each of the first [fuel + 1]
    boundaries. *)
Lemma run_loop_goes_on (N : Z) (dt : double) :
  forall fuel s,
    wf_sim N s ->
    (run_loop fuel N dt s = OutOfFuel
     <-> forall k, (k <= fuel)%nat ->
           total_crossed (tick_results N dt k s) < N).
Proof.
  induction fuel as [|fuel IH]; intros s Hwf; cbn.
  - destruct (Z.ltb_spec (total_crossed s) N) as [Hlt|Hge]; split.
    + intros _ k Hk. replace k with O by lia. exact Hlt.
    + reflexivity.
    + discriminate.
    + intros H. specialize (H O (Nat.le_refl _)). cbn in H. lia.
  - destruct (Z.ltb_spec (total_crossed s) N) as [Hlt|Hge].
    + rewrite tick_closed_form by exact Hwf.
      rewrite IH by now apply tick_result_wf. split.
      * intros H [|k] Hk; [exact Hlt|]. cbn. apply H. lia.
      * intros H k Hk. apply (H (S k)). lia.
    + split; [discriminate|].
      intros H. specialize (H O (Nat.le_0_l _)). cbn in H. lia.
Qed.

Lemma start_inv (X : Intersection) (V : list Vehicle) :
  num_lights X = Z.of_nat (length (lights X)) ->
  Forall (fun v => 0 <= lane v < num_lights X /\ finished v = false) V ->
  boundary_inv (Z.of_nat (length V)) (start max_threads X V).
Proof.
  intros Hnl HV. split; [split; [|split; [|split]]|]; cbn.
  - exact Hnl.
  - now rewrite Nat2Z.id.
  - now rewrite repeat_length, Nat2Z.id.
  - eapply Forall_impl; [|exact HV]. cbn. tauto.
  - unfold count_finished.
    replace (filter finished V) with (@nil Vehicle); [reflexivity|].
    symmetry. induction HV as [|v V' (_ & Hfin) _ IH]; cbn;
      [reflexivity | now rewrite Hfin].
Qed.

End Runs.

(** ** Exact arithmetic: lights *)

Lemma aget_map {A B : Type} (f : A -> B) (a : list A) (i : Z) :
  aget (map f a) i = option_map f (aget a i).
Proof.
  unfold aget. destruct (i <? 0); [reflexivity|]. apply nth_error_map.
Qed.

Section ExactArithmetic.

#[local] Existing Instance Exact.rational.

Lemma span_S (k : nat) (dt : Q) : (span (S k) dt == span k dt + dt)%Q.
Proof.
  unfold span. rewrite Nat2Z.inj_succ. unfold Z.succ.
  rewrite inject_Z_plus. ring.
Qed.

Lemma span_0 (dt : Q) : (span 0 dt == 0)%Q.
Proof. unfold span. cbn [Z.of_nat]. change (inject_Z 0) with 0%Q. ring. Qed.

Lemma span_1 (dt : Q) : (span 1 dt == dt)%Q.
Proof. unfold span. cbn [Z.of_nat]. change (inject_Z 1) with 1%Q. ring. Qed.


Lemma dge_exact (a b : Q) : dge a b = true <-> (b <= a)%Q.
Proof. unfold dge. cbn. apply Qle_bool_iff. Qed.

Lemma dge_exact_false (a b : Q) : dge a b = false <-> (a < b)%Q.
Proof.
  rewrite <- not_true_iff_false, dge_exact. split; intros H; lra.
Qed.

Lemma update_stays (L : TrafficLight) (dt : Q) :
  (time_in_state L + dt < duration L)%Q ->
  update_traffic_light L dt = set_time_in_state L (time_in_state L + dt)%Q.
Proof.
  intros H. apply dge_exact_false in H.
  destruct L as [i s t g y r]; unfold update_traffic_light, duration in *;
    cbn in *.
  destruct s; cbn in *; rewrite H; reflexivity.
Qed.

Lemma update_switches (L : TrafficLight) (dt : Q) :
  (duration L <= time_in_state L + dt)%Q ->
  update_traffic_light L dt
  = set_time_in_state (set_state L (next_phase (state L))) (of_int 0).
Proof.
  intros H. apply dge_exact in H.
  destruct L as [i s t g y r]; unfold update_traffic_light, duration in *;
    cbn in *.
  destruct s; cbn in *; rewrite H; reflexivity.
Qed.

Lemma updates_snoc (n : nat) (L : TrafficLight) (dt : Q) :
  updates (S n) L dt = update_traffic_light (updates n L dt) dt.
Proof.
  revert L. induction n as [|n IH]; intros L; [reflexivity|].
  cbn [updates] in *. now rewrite IH.
Qed.

Lemma updates_add (a b : nat) (L : TrafficLight) (dt : Q) :
  updates (a + b) L dt = updates b (updates a L dt) dt.
Proof.
  revert L. induction a as [|a IH]; intros L; [reflexivity|].
  cbn [updates Nat.add]. apply IH.
Qed.

(** While the accumulated time stays below the duration, the light only
    accumulates time. *)
Lemma updates_stay (dt : Q) :
  forall (j : nat) (L : TrafficLight),
    (forall i, (1 <= i <= j)%nat ->
               (time_in_state L + span i dt < duration L)%Q) ->
    exists t, (t == time_in_state L + span j dt)%Q
              /\ updates j L dt = set_time_in_state L t.
Proof.
  induction j as [|j IH]; intros L H.
  - exists (time_in_state L). split.
    + rewrite span_0. lra.
    + now destruct L.
  - cbn [updates]. rewrite update_stays.
    2:{ specialize (H 1%nat). rewrite span_1 in H. apply H. lia. }
    destruct (IH (set_time_in_state L (time_in_state L + dt)%Q)) as (t & Ht & E).
    + intros i Hi. cbn. specialize (H (S i)). rewrite span_S in H.
      unfold duration in *. cbn.
      assert (Hlt : (time_in_state L + (span i dt + dt)
                     < match state L with
                       | RED => t_red L | GREEN => t_green L
                       | YELLOW => t_yellow L end)%Q) by (apply H; lia).
      lra.
    + exists t. split.
      * rewrite Ht. cbn. rewrite span_S. lra.
      * rewrite E. now destruct L.
Qed.

(** A visit to a phase: a light whose accumulated time [t0] is below the
    duration [d] of its phase stays for [k] updates and then enters the
    next phase, [k] being the least number with [d <= t0 + k * dt]. *)
Lemma phase_visit (L : TrafficLight) (dt : Q) :
  (0 < dt)%Q ->
  (time_in_state L < duration L)%Q ->
  exists k : nat,
    (1 <= k)%nat
    /\ (forall j, (j < k)%nat -> state (updates j L dt) = state L)
    /\ updates k L dt
       = set_time_in_state (set_state L (next_phase (state L))) (of_int 0)
    /\ (duration L <= time_in_state L + span k dt)%Q
    /\ (time_in_state L + span k dt < duration L + dt)%Q
    /\ (forall j : nat,
          (duration L <= time_in_state L + span j dt)%Q -> (k <= j)%nat).
Proof.
  intros Hdt Hlt.
  set (x := ((duration L - time_in_state L) / dt)%Q).
  assert (Hx : (x * dt == duration L - time_in_state L)%Q)
    by (unfold x; field; lra).
  assert (Hxpos : (0 < x)%Q).
  { apply Qlt_shift_div_l; [exact Hdt | lra]. }
  set (c := Qceiling x).
  assert (Hc1 : 1 <= c).
  { pose proof (Qle_ceiling x) as H. fold c in H.
    assert (H0 : (inject_Z 0 < inject_Z c)%Q) by (change (inject_Z 0) with 0%Q; lra).
    rewrite <- Zlt_Qlt in H0. lia. }
  assert (Hup : (duration L - time_in_state L <= inject_Z c * dt)%Q).
  { rewrite <- Hx. apply Qmult_le_compat_r; [apply Qle_ceiling | lra]. }
  assert (Hlow : (inject_Z (c - 1) * dt < duration L - time_in_state L)%Q).
  { rewrite <- Hx. apply Qmult_lt_compat_r; [exact Hdt | apply Qceiling_lt]. }
  assert (Hbelow : forall j : nat,
             (j < Z.to_nat c)%nat ->
             (time_in_state L + span j dt < duration L)%Q).
  { intros j Hj. unfold span.
    assert (Hjc : (inject_Z (Z.of_nat j) <= inject_Z (c - 1))%Q)
      by (rewrite <- Zle_Qle; lia).
    assert ((inject_Z (Z.of_nat j) * dt <= inject_Z (c - 1) * dt)%Q)
      by (apply Qmult_le_compat_r; [exact Hjc | lra]).
    lra. }
  exists (Z.to_nat c).
  assert (Hk : Z.of_nat (Z.to_nat c) = c) by lia.
  split; [lia|]. split; [|split; [|split; [|split]]].
  - intros j Hj.
    destruct (updates_stay dt j L) as (t & _ & ->).
    + intros i Hi. apply Hbelow. lia.
    + now destruct L.
  - destruct (Z.to_nat c) as [|k'] eqn:Ek; [lia|].
    rewrite updates_snoc.
    destruct (updates_stay dt k' L) as (t & Ht & ->).
    { intros i Hi. apply Hbelow. lia. }
    rewrite update_switches.
    + now destruct L.
    + replace (duration (set_time_in_state L t)) with (duration L)
        by now destruct L.
      cbn [time_in_state set_time_in_state]. rewrite Ht.
      assert (Hs : (span (S k') dt == span k' dt + dt)%Q) by apply span_S.
      unfold span in Hs at 1. rewrite Hk in Hs. lra.
  - unfold span. rewrite Hk. lra.
  - unfold span. rewrite Hk.
    replace (inject_Z c) with (inject_Z ((c - 1) + 1)) by (f_equal; lia).
    rewrite inject_Z_plus. change (inject_Z 1) with 1%Q. lra.
  - intros j Hj. destruct (Nat.le_gt_cases (Z.to_nat c) j) as [?|Hgt];
      [assumption|].
    specialize (Hbelow j Hgt). lra.
Qed.

Lemma duration_positive (L : TrafficLight) :
  (0 < t_green L)%Q -> (0 < t_yellow L)%Q -> (0 < t_red L)%Q ->
  (0 < duration L)%Q.
Proof. unfold duration. now destruct (state L). Qed.

(** C8, as amended.  In exact arithmetic, for strictly positive durations
    and [dt > 0], take a light [L] that has just entered its phase [P]: its
    time in state is 0, as every transition and the initialisation leave
    it ([entry_resets]).  Under repeated updates [L] is in [P] for the
    first [k] ticks, in other phases for the next [m] ticks, and enters [P]
    again, with time 0, after [k + m] ticks.  The time [k * dt] spent in
    [P] between the two entries is at least the duration of [P] and
    strictly less than that duration plus [dt], and [k] is the least
    number with [k * dt >= duration]. *)
Theorem phase_time_between_entries (L : TrafficLight) (dt : Q) :
  (0 < dt)%Q ->
  (0 < t_green L)%Q -> (0 < t_yellow L)%Q -> (0 < t_red L)%Q ->
  (time_in_state L == 0)%Q ->
  exists k m : nat,
    (1 <= k)%nat
    /\ (forall j, (j < k)%nat -> state (updates j L dt) = state L)
    /\ (forall j, (k <= j < k + m)%nat -> state (updates j L dt) <> state L)
    /\ state (updates (k + m) L dt) = state L
    /\ time_in_state (updates (k + m) L dt) = of_int 0
    /\ (duration L <= span k dt)%Q
    /\ (span k dt < duration L + dt)%Q
    /\ (forall j : nat, (duration L <= span j dt)%Q -> (k <= j)%nat).
Proof.
  intros Hdt Hg Hy Hr H0.
  pose proof (duration_positive L Hg Hy Hr) as Hd.
  destruct (phase_visit L dt Hdt) as (k1 & Hk1 & Hin1 & E1 & Hlo & Hhi & Hleast);
    [lra|].
  set (L1 := set_time_in_state (set_state L (next_phase (state L))) (of_int 0))
    in *.
  destruct (phase_visit L1 dt Hdt) as (k2 & Hk2 & Hin2 & E2 & _).
  { apply (duration_positive L1); assumption. }
  set (L2 := set_time_in_state (set_state L1 (next_phase (state L1))) (of_int 0))
    in *.
  destruct (phase_visit L2 dt Hdt) as (k3 & Hk3 & Hin3 & E3 & _).
  { apply (duration_positive L2); assumption. }
  exists k1, (k2 + k3)%nat.
  split; [exact Hk1|]. split; [exact Hin1|].
  split; [|split; [|split; [|split; [|split]]]].
  - intros j Hj.
    replace j with (k1 + (j - k1))%nat by lia.
    rewrite updates_add, E1.
    destruct (Nat.lt_ge_cases (j - k1) k2) as [Hlt|Hge].
    + rewrite Hin2 by exact Hlt. cbn. now destruct (state L).
    + replace (j - k1)%nat with (k2 + (j - k1 - k2))%nat by lia.
      rewrite updates_add, E2, Hin3 by lia. cbn. now destruct (state L).
  - rewrite !updates_add, E1, E2, E3. cbn. now destruct (state L).
  - rewrite !updates_add, E1, E2, E3. reflexivity.
  - lra.
  - lra.
  - intros j Hj. apply Hleast. lra.
Qed.

(** *** Exact arithmetic: vehicles *)

Lemma dle_exact (a b : Q) : dle a b = true <-> (a <= b)%Q.
Proof. cbn. apply Qle_bool_iff. Qed.

Lemma dle_exact_false (a b : Q) : dle a b = false <-> (b < a)%Q.
Proof.
  rewrite <- not_true_iff_false, dle_exact. split; intros H; lra.
Qed.






(** *** Exact arithmetic: every vehicle finishes *)









End ExactArithmetic.

(** ** Termination of the tick loop in exact arithmetic *)

Section ExactTermination.

#[local] Existing Instance Exact.rational.

Variable max_threads : Z.


End ExactTermination.

(** ** A run that never ends *)

Section NeverEnding.

Context {D : Double}.
Import SlowVehicle.

Hypothesis outcomes : comparisons.

Lemma light_turns (st : LightState) :
  lights_after dt (crossing st) = crossing (next_phase st).
Proof.
  destruct outcomes as (Ht & _).
  unfold lights_after, crossing, light, update_traffic_light; cbn.
  destruct st; cbn; rewrite Ht; reflexivity.
Qed.

Lemma orbit_step (X : Intersection) (v : Vehicle) :
  on_orbit X v ->
  on_orbit (lights_after dt X) (fst (step_vehicle (lights_after dt X) dt v)).
Proof.
  destruct outcomes as (_ & H1 & H2 & H3 & H4 & H5).
  intros (st & w & p & tw & -> & -> & Hin).
  rewrite light_turns.
  cbn [In orbit] in Hin.
  repeat (destruct Hin as [[= <- <- <-]|Hin]); try contradiction;
    unfold step_vehicle, move_vehicle, count_wait, car, crossing, light;
    cbn; fold (on (ddiv (of_int 3) (of_int 2))); fold (on (of_int 2));
    try fold (on (on (ddiv (of_int 3) (of_int 2))));
    try fold (on (on (of_int 2))); try fold (on (on (on (of_int 2))));
    rewrite ?H1, ?H2, ?H3, ?H4, ?H5; cbn;
    [ exists YELLOW, false, (on (ddiv (of_int 3) (of_int 2)))
    | exists RED, true, (of_int 2)
    | exists GREEN, false, (on (of_int 2))
    | exists YELLOW, false, (on (on (of_int 2)))
    | exists RED, true, (of_int 2) ];
    eexists; (split; [reflexivity|]); (split; [reflexivity|]);
    cbn; tauto.
Qed.

Lemma orbit_unfinished (n : nat) :
  forall X v, on_orbit X v -> finished (drive n X dt v) = false.
Proof.
  induction n as [|n IH]; intros X v H.
  - destruct H as (st & w & p & tw & _ & -> & _). reflexivity.
  - cbn [drive]. apply IH. now apply orbit_step.
Qed.

(** On the orbit the count stays at 0, and the loop goes on. *)
Lemma never_returns (max_threads : Z) (fuel : nat) :
  run_loop fuel (Z.of_nat (length V0)) dt (start max_threads X0 V0) = OutOfFuel.
Proof.
  assert (Hinv : boundary_inv (Z.of_nat (length V0)) (start max_threads X0 V0)).
  { apply start_inv; [reflexivity|]. repeat constructor; cbn; lia. }
  apply run_loop_goes_on; [apply Hinv|].
  intros k _.
  destruct (tick_results_inv (Z.of_nat (length V0))
              dt k (start max_threads X0 V0)) as [_ ->];
    [cbn; unfold Int32.INT_MAX; lia | exact Hinv |].
  destruct (tick_results_vehicles
              (Z.of_nat (length V0)) dt k (start max_threads X0 V0)) as [-> _].
  cbn [vehicles start V0 map isect].
  rewrite count_finished_cons, orbit_unfinished.
  - reflexivity.
  - eexists GREEN, false, _, _. split; [reflexivity|].
    split; [reflexivity|]. cbn. tauto.
Qed.

End NeverEnding.

Section NeverEndingExact.

#[local] Existing Instance Exact.rational.
Import SlowVehicle.

(** The configuration [SlowVehicle], in exact arithmetic, has one
    vehicle, [dt = 1 > 0], a strictly positive speed and strictly positive
    green, yellow and red durations, and its tick loop never returns:
    whatever the number of ticks allowed, the cumulative crossed count is
    still 0.  (The configuration is built by hand: [run_simulation]
    builds four lights with phases of 2 s at least and vehicles of
    6 m/s at least.) *)
Lemma slow_vehicle_never_crosses :
  1 <= Z.of_nat (length V0)
  /\ (0 < dt)%Q
  /\ Forall (fun v => (0 < speed v)%Q) V0
  /\ Forall good_light (lights X0)
  /\ (forall fuel,
        run_loop fuel (Z.of_nat (length V0)) dt (start 8 X0 V0) = OutOfFuel).
Proof.
  split; [cbn; lia|]. split; [reflexivity|].
  split; [repeat constructor|]. split; [repeat constructor|].
  intros fuel. apply never_returns. repeat split.
Qed.

End NeverEndingExact.

(** The same configuration on binary64: the run never returns either. *)
Lemma slow_vehicle_never_crosses_binary64 (fuel : nat) :
  run_loop (D := IEEE.binary64) fuel
    (Z.of_nat (length (SlowVehicle.V0 (D := IEEE.binary64))))
    SlowVehicle.dt (start 8 SlowVehicle.X0 SlowVehicle.V0)
  = OutOfFuel.
Proof. apply never_returns. repeat split. Qed.

(** ** Runs whose ticks are exact *)

Section All2.

Context {A : Type}.
Variable f : A -> A -> bool.





End All2.




Section ExactStates.

#[local] Existing Instance Exact.rational.















End ExactStates.

Section ExactRuns.

Context {D : Double}.
Variable val : double -> Q.




End ExactRuns.

Section Termination.

Context {D : Double}.
Variable val : double -> Q.
Variable max_threads : Z.


End Termination.

(** ** A run that rounds, and never ends *)

Section Stuck.

Context {D : Double}.




End Stuck.

Section TerminationOnBinary64.

#[local] Existing Instance IEEE.binary64.
Import Scenario.



End TerminationOnBinary64.

(** ** Conservation, one-shot crossing and frame properties *)

Section Simulation.

Context {D : Double}.
Variables max_threads RAND_MAX : Z.
Variable rand : Z -> nat -> Z.

(** C4.  For a vehicle count [N] (an [int]): at every tick boundary of a
    run (every state in which the loop condition is evaluated, the tick's
    crossings having been added), [total_crossed] is the number of
    vehicles whose [finished] flag is set.  When the loop returns, every
    vehicle of the run is finished and [total_crossed] is their number;
    for [N >= 0] that number is exactly [N], and it is the count that
    [run_simulation] reports.  (A run started with [N < 0] has no vehicle
    and executes no tick.) *)
Theorem crossed_count_conservation (N : Z) (dt : double) (seed : Z) :
  N <= Int32.INT_MAX ->
  (forall s,
      reachable max_threads RAND_MAX rand N dt seed s ->
      total_crossed s = count_finished (vehicles s))
  /\ (forall fuel s,
        run_loop fuel N dt (init_sim max_threads RAND_MAX rand N seed)
        = Returned s ->
        total_crossed s = count_finished (vehicles s)
        /\ count_finished (vehicles s) = Z.of_nat (length (vehicles s))
        /\ (0 <= N -> total_crossed s = N))
  /\ (forall fuel print_every r,
        run_simulation max_threads RAND_MAX rand fuel N print_every dt seed
        = Returned r ->
        0 <= N -> sm_crossed r = N).
Proof.
  intros HN.
  assert (Hreach : forall s,
             reachable max_threads RAND_MAX rand N dt seed s ->
             total_crossed s = count_finished (vehicles s)).
  { intros s Hs. now apply (reachable_inv max_threads RAND_MAX rand N dt seed). }
  assert (Hret : forall fuel s,
             run_loop fuel N dt (init_sim max_threads RAND_MAX rand N seed)
             = Returned s ->
             total_crossed s = count_finished (vehicles s)
             /\ count_finished (vehicles s) = Z.of_nat (length (vehicles s))
             /\ (0 <= N -> total_crossed s = N)).
  { intros fuel s Hs.
    destruct (run_loop_reachable max_threads RAND_MAX rand N dt seed
                fuel _ s (reach_init _ _ _ _ _ _) Hs) as [Hr Hge].
    destruct (reachable_inv max_threads RAND_MAX rand N dt seed s HN Hr)
      as [(_ & HV & _) Htc].
    pose proof (count_finished_bounds (vehicles s)).
    repeat split; lia. }
  split; [exact Hreach|]. split; [exact Hret|].
  intros fuel pe r. unfold run_simulation.
  destruct (run_loop fuel N dt (init_sim max_threads RAND_MAX rand N seed))
    as [s| |] eqn:E; try discriminate.
  destruct (c_for N (metrics (vehicles s)) (of_int 0, 0)) as [[a c]|];
    [|discriminate].
  intros [= <-]. cbn. now apply (Hret fuel).
Qed.

Lemma aget_map_drive (n : nat) (X : Intersection) (dt : double)
    (V : list Vehicle) (i : Z) (v : Vehicle) :
  aget V i = Some v -> finished v = true ->
  aget (map (drive n X dt) V) i = Some v.
Proof.
  intros H Hf. unfold aget in *. destruct (i <? 0); [discriminate|].
  rewrite nth_error_map, H. cbn. now rewrite drive_finished.
Qed.

(** C5.  In every state that a run reaches: every vehicle has
    [crossings] 0 or 1; on a vehicle whose [finished] flag is set,
    [move_vehicle] returns 0 and changes nothing (whatever the
    intersection and [dt]); and such a vehicle is the same, field for
    field (distance, waiting time and waiting flag among them), after any
    number of further ticks. *)
Theorem one_shot_crossing (N : Z) (dt : double) (seed : Z) (s : Sim) :
  reachable max_threads RAND_MAX rand N dt seed s ->
  (forall v, In v (vehicles s) -> crossings v = 0 \/ crossings v = 1)
  /\ (forall v X dt',
        In v (vehicles s) -> finished v = true ->
        move_vehicle v X dt' = Some (v, 0))
  /\ (forall i v n s',
        aget (vehicles s) i = Some v -> finished v = true ->
        ticks N dt n s = Some s' ->
        aget (vehicles s') i = Some v).
Proof.
  intros Hr. split; [|split].
  - intros v Hv.
    pose proof (reachable_one_shot max_threads RAND_MAX rand N dt seed s Hr)
      as Hone.
    rewrite Forall_forall in Hone. destruct (Hone v Hv) as [Hc _].
    rewrite Hc. destruct (finished v); cbn; tauto.
  - intros v X dt' _ Hf. unfold move_vehicle. now rewrite Hf.
  - intros i v n s' Hi Hf Ht.
    rewrite ticks_closed_form in Ht
      by (eapply reachable_wf; eassumption).
    injection Ht as <-.
    destruct (tick_results_vehicles N dt n s) as [-> _].
    now apply aget_map_drive.
Qed.

(** In a run, a vehicle that is waiting has not finished. *)
Lemma waiting_not_finished (N : Z) (dt : double) (seed : Z) (s : Sim)
    (v : Vehicle) :
  reachable max_threads RAND_MAX rand N dt seed s ->
  In v (vehicles s) -> waiting v = true -> finished v = false.
Proof.
  intros Hr Hv Hw.
  pose proof (reachable_one_shot max_threads RAND_MAX rand N dt seed s Hr)
    as Hone.
  rewrite Forall_forall in Hone. destruct (Hone v Hv) as [_ Hfw].
  destruct (finished v); [|reflexivity].
  rewrite Hfw in Hw by reflexivity. discriminate.
Qed.

(** C10, as amended.  A vehicle that has not finished (no waiting vehicle
    of a run has, [waiting_not_finished]) and that is waiting at the stop
    offset, the offset being strictly positive and the light of its lane
    RED:
    [move_vehicle] returns 0 and the vehicle after the call differs from
    the one before in its waiting time only, which has grown by exactly
    [dt]; position (still the stop offset), waiting flag, finished flag,
    crossings, identity, lane and speed are the same.  It holds for every
    [dt]. *)
Theorem waiting_at_red {O : OrderedDouble D} (V : Vehicle) (X : Intersection)
    (L : TrafficLight) (dt : double) :
  finished V = false ->
  waiting V = true ->
  pos V = stop_distance X ->
  dlt (of_int 0) (stop_distance X) = true ->
  aget (lights X) (lane V) = Some L ->
  state L = RED ->
  move_vehicle V X dt
  = Some (mkVehicle (vehicle_id V) (lane V) (pos V) (speed V) (waiting V)
            (dadd (total_wait V) dt) (crossings V) (finished V), 0).
Proof.
  intros Hf Hw Hp Hpos HL HR.
  apply dlt_not_dle in Hpos.
  unfold move_vehicle, count_wait. rewrite Hf, HL, Hw, HR. cbn.
  rewrite Hw. cbn. rewrite Hp, Hpos, Hw. cbn.
  destruct V; cbn in *; now subst.
Qed.

Lemma aget_upd_other {A : Type} (a : list A) (n : nat) (x : A) (j : Z) :
  j <> Z.of_nat n -> aget (upd a n x) j = aget a j.
Proof.
  intros Hj. unfold aget. destruct (Z.ltb_spec j 0) as [|H0]; [reflexivity|].
  assert (Hn : Z.to_nat j <> n) by lia. clear Hj H0.
  revert n Hn. generalize (Z.to_nat j) as m.
  induction a as [|y a IH]; intros m n Hn; [now destruct n|].
  destruct n as [|n], m as [|m]; cbn; try reflexivity; try lia.
  apply IH. lia.
Qed.

Lemma upd_length {A : Type} (a : list A) (n : nat) (x : A) :
  length (upd a n x) = length a.
Proof.
  revert n. induction a as [|y a IH]; intros [|n]; cbn; try reflexivity.
  now rewrite IH.
Qed.

Lemma aget_upd_same {A : Type} (a : list A) (i : Z) (x y : A) :
  aget a i = Some y -> aget (upd a (Z.to_nat i) x) i = Some x.
Proof.
  unfold aget. destruct (i <? 0); [discriminate|].
  generalize (Z.to_nat i) as n. clear i.
  induction a as [|z a IH]; intros [|n]; cbn; try discriminate;
    [reflexivity | apply IH].
Qed.

Lemma aset_defined {A : Type} (a : list A) (i : Z) (x y : A) :
  aget a i = Some y -> aset a i x = Some (upd a (Z.to_nat i) x).
Proof.
  unfold aget, aset. destruct (Z.ltb_spec i 0) as [|H0]; [discriminate|].
  intros H. assert (Hlt : (Z.to_nat i < length a)%nat).
  { apply nth_error_Some. congruence. }
  destruct (Z.leb_spec 0 i); [|lia].
  destruct (Z.ltb_spec i (Z.of_nat (length a))); [reflexivity | lia].
Qed.

Lemma upd_upd {A : Type} (a : list A) (n : nat) (x y : A) :
  upd (upd a n x) n y = upd a n y.
Proof.
  revert n. induction a as [|z a IH]; intros [|n]; cbn; try reflexivity.
  now rewrite IH.
Qed.

Lemma upd_same {A : Type} (a : list A) (n : nat) (x : A) :
  nth_error a n = Some x -> upd a n x = a.
Proof.
  revert n. induction a as [|z a IH]; intros [|n]; cbn; try discriminate.
  - now intros [= ->].
  - intros H. now rewrite IH.
Qed.

Lemma load_with (V : list Vehicle) (X : Intersection) (i : Z)
    (v0 v : Vehicle) :
  aget V i = Some v0 ->
  load_vehicle i (with_vehicle V X i v) = Some (v, with_vehicle V X i v).
Proof.
  intros H. unfold load_vehicle, with_vehicle; cbn.
  now rewrite (aget_upd_same V i v v0 H).
Qed.

Lemma store_with (V : list Vehicle) (X : Intersection) (i : Z)
    (v0 v : Vehicle) (f : Vehicle -> Vehicle) :
  aget V i = Some v0 ->
  store_vehicle i f (with_vehicle V X i v)
  = Some (tt, with_vehicle V X i (f v)).
Proof.
  intros H. unfold store_vehicle, with_vehicle; cbn.
  rewrite (aget_upd_same V i v v0 H).
  rewrite (aset_defined _ i (f v) v (aget_upd_same V i v v0 H)).
  now rewrite upd_upd.
Qed.

Lemma light_with (V : list Vehicle) (X : Intersection) (i k : Z)
    (v : Vehicle) :
  load_light k (with_vehicle V X i v)
  = match aget (lights X) k with
    | Some L => Some (L, with_vehicle V X i v)
    | None => None
    end.
Proof. reflexivity. Qed.

(** The statements of [move_vehicle], run on the memory, compute
    [move_vehicle] of the vehicle [V[i]] and of the intersection, and
    write to [V[i]] only. *)
Lemma move_vehicle_mem_spec (i : Z) (dt : double) (V : list Vehicle)
    (X : Intersection) :
  move_vehicle_mem i dt (mkMemory V X)
  = match aget V i with
    | None => None
    | Some v =>
        match move_vehicle v X dt with
        | None => None
        | Some (v', c) => Some (c, with_vehicle V X i v')
        end
    end.
Proof.
  unfold move_vehicle_mem, bind at 1. unfold load_vehicle at 1. cbn [mem_V].
  destruct (aget V i) as [v|] eqn:Hv; [|reflexivity].
  assert (Hm : mkMemory V X = with_vehicle V X i v).
  { unfold with_vehicle. rewrite upd_same; [reflexivity|].
    unfold aget in Hv. now destruct (i <? 0). }
  unfold move_vehicle. destruct (finished v) eqn:Hf.
  - unfold ret. now rewrite <- Hm.
  - rewrite Hm. unfold bind, wait_and_return, bind, ret.
    rewrite light_with.
    destruct v as [a l p sp w tw c f]; cbn in Hf; subst f.
    cbn [waiting lane].
    destruct (aget (lights X) l) as [L|] eqn:Hl; [|reflexivity].
    destruct w, (go (state L)) eqn:Hg; cbn [andb negb];
      repeat first
        [ rewrite (store_with V X i _ _ _ Hv)
        | rewrite (load_with V X i _ _ Hv)
        | rewrite light_with, Hl
        | rewrite Hg
        | progress cbn [waiting pos speed total_wait set_waiting set_pos
                        set_crossings set_finished set_total_wait count_wait
                        negb andb load_stop_distance mem_X with_vehicle
                        stop_distance fst snd]
        | match goal with
          | |- context [dle ?a ?b] => destruct (dle a b) eqn:?
          end ];
      reflexivity.
Qed.

(** What the result of [move_vehicle] depends on: the vehicle, the light
    of its lane and the stop offset. *)
Lemma move_vehicle_reads (v : Vehicle) (X X2 : Intersection) (dt : double) :
  aget (lights X2) (lane v) = aget (lights X) (lane v) ->
  stop_distance X2 = stop_distance X ->
  move_vehicle v X2 dt = move_vehicle v X dt.
Proof. intros HL Hs. unfold move_vehicle. now rewrite HL, Hs. Qed.

(** C9, as amended.  A call [move_vehicle(&V[i], &X, dt)] that is defined
    leaves the intersection as it was (every light, the lane count, the
    stop offset) and every vehicle other than [V[i]] as it was; and what
    it returns and what it makes of [V[i]] depend on nothing but [V[i]],
    the light of its lane and the stop offset of the intersection: in any
    other memory that agrees on these three the call returns the same
    flag and leaves the same vehicle [i]. *)
Theorem move_vehicle_frame (i : Z) (dt : double) (m m' : Memory) (c : Z) :
  move_vehicle_mem i dt m = Some (c, m') ->
  (mem_X m' = mem_X m
   /\ length (mem_V m') = length (mem_V m)
   /\ forall j, j <> i -> aget (mem_V m') j = aget (mem_V m) j)
  /\ (forall m2,
        aget (mem_V m2) i = aget (mem_V m) i ->
        (forall v, aget (mem_V m) i = Some v ->
                   aget (lights (mem_X m2)) (lane v)
                   = aget (lights (mem_X m)) (lane v)) ->
        stop_distance (mem_X m2) = stop_distance (mem_X m) ->
        exists m2',
          move_vehicle_mem i dt m2 = Some (c, m2')
          /\ aget (mem_V m2') i = aget (mem_V m') i).
Proof.
  destruct m as [V X]. rewrite move_vehicle_mem_spec. cbn [mem_V mem_X].
  destruct (aget V i) as [v|] eqn:Hv; [|discriminate].
  destruct (move_vehicle v X dt) as [[v' c']|] eqn:Hm; [|discriminate].
  intros [= <- <-]. unfold with_vehicle; cbn [mem_V mem_X].
  split; [split; [reflexivity|split]|].
  - apply upd_length.
  - intros j Hj. apply aget_upd_other.
    unfold aget in Hv. destruct (Z.ltb_spec i 0); [discriminate|]. lia.
  - intros [V2 X2] HV2 HL Hs. cbn [mem_V mem_X] in *.
    rewrite move_vehicle_mem_spec, HV2.
    rewrite (move_vehicle_reads v X X2 dt (HL v eq_refl) Hs), Hm.
    eexists. split; [reflexivity|].
    unfold with_vehicle; cbn [mem_V].
    rewrite (aget_upd_same V2 i v' v HV2).
    now rewrite (aget_upd_same V i v' v Hv).
Qed.

End Simulation.

(** ** The team-size heuristic *)

Lemma ceil_div_16 (n : Z) : ceil_div n 16 = (n + 15) / 16.
Proof. unfold ceil_div. Z.div_mod_to_equations. lia. Qed.

(** Where [num_vehicles + 15] is representable the heuristic is the
    formula of the specification: for every vehicle count
    [0 <= n <= INT_MAX - 15], every count [0 <= g <= INT_MAX] of green
    lights and every maximum team size [M], [choose_threads(n, g)] is
    [clamp(ceil(n / 16) + (1 + floor(g / 2) if g > 0 else 1), 1, M)]. *)
Lemma choose_threads_formula (M n g : Z) :
  0 <= n <= Int32.INT_MAX - 15 ->
  0 <= g <= Int32.INT_MAX ->
  choose_threads M n g = team_size_formula M n g.
Proof.
  unfold Int32.INT_MAX. intros Hn Hg.
  unfold choose_threads, team_size_formula, clamp, Int32.add, Int32.div.
  rewrite ceil_div_16.
  rewrite (wrap_in_range (n + 15))
    by (unfold Int32.in_range, Int32.INT_MIN, Int32.INT_MAX; lia).
  rewrite !Z.quot_div_nonneg by lia.
  assert (Hq : 0 <= (n + 15) / 16 <= 134217727)
    by (Z.div_mod_to_equations; lia).
  assert (Hh : 0 <= g / 2 <= 1073741823) by (Z.div_mod_to_equations; lia).
  rewrite (wrap_in_range ((n + 15) / 16))
    by (unfold Int32.in_range, Int32.INT_MIN, Int32.INT_MAX; lia).
  rewrite (wrap_in_range (g / 2))
    by (unfold Int32.in_range, Int32.INT_MIN, Int32.INT_MAX; lia).
  rewrite (wrap_in_range (1 + g / 2))
    by (unfold Int32.in_range, Int32.INT_MIN, Int32.INT_MAX; lia).
  destruct (0 <? g);
    rewrite wrap_in_range
      by (unfold Int32.in_range, Int32.INT_MIN, Int32.INT_MAX; lia);
    match goal with
    | |- context [?x <? 1] => destruct (Z.ltb_spec x 1)
    end;
    match goal with
    | |- context [M <? ?x] => destruct (Z.ltb_spec M x)
    end; lia.
Qed.

(** C6.  The claim is that for every [n >= 0], [g >= 0] and [M >= 1],
    [choose_threads(n, g)] is
    [clamp(ceil(n / 16) + (1 + floor(g / 2) if g > 0 else 1), 1, M)].  The
    code computes the ceiling as [(num_vehicles + 15) / 16] in [int]
    arithmetic, and for [num_vehicles > INT_MAX - 15] the sum is not
    representable.  At [num_vehicles = INT_MAX], no green light and a
    maximum of 8 workers it wraps to a negative number, and [choose_threads]
    answers 1 where the formula gives 8. *)
Lemma choose_threads_wraps :
  choose_threads 8 2147483647 0 = 1
  /\ team_size_formula 8 2147483647 0 = 8
  /\ choose_threads 8 2147483647 0 <> team_size_formula 8 2147483647 0.
Proof. repeat split. discriminate. Qed.

(** ** The properties on concrete inputs *)

Section OnBinary64.

#[local] Existing Instance IEEE.binary64.
Import Scenario.

(** First scenario of the specification, on binary64: the vehicle reaches
    the line under GREEN and crosses in the tick. *)
Lemma move_vehicle_steps_witness :
  finished arriving = false
  /\ aget (lights (crossing GREEN 2)) (lane arriving) = Some (light GREEN)
  /\ move_vehicle arriving (crossing GREEN 2) (of_int 1)
     = Some (mkVehicle 0 0 (of_int 0) (of_int 5) false (of_int 0) 1 true, 1).
Proof.
  split; [reflexivity|]. split; [reflexivity|].
  exact (move_vehicle_steps arriving (crossing GREEN 2)
           (light GREEN) (of_int 1) eq_refl eq_refl).
Defined.

(** Second scenario, one tick later: held at RED, only the waiting time
    moves. *)
Lemma waiting_at_red_witness :
  finished held = false
  /\ waiting held = true
  /\ pos held = stop_distance (crossing RED 2)
  /\ dlt (of_int 0) (stop_distance (crossing RED 2)) = true
  /\ move_vehicle held (crossing RED 2) (of_int 1)
     = Some (mkVehicle 0 0 (of_int 2) (of_int 3) true (of_int 2) 0 false, 0).
Proof.
  split; [reflexivity|]. split; [reflexivity|]. split; [reflexivity|].
  split; [reflexivity|].
  exact (waiting_at_red (O := binary64_ordered)
           held (crossing RED 2) (light RED) (of_int 1)
           eq_refl eq_refl eq_refl eq_refl eq_refl eq_refl).
Defined.

(** C10, counterexample.  A vehicle whose [waiting] flag is set, at the
    strictly positive stop offset, under a RED light, with [dt = 1 > 0]:
    every hypothesis of the claim holds.  Its [finished] flag is set as
    well, so the call returns at its first statement: it returns 0 and
    leaves the waiting time at 1 second, not at the 2 seconds of the
    claim. *)
Lemma finished_vehicle_does_not_wait :
  waiting stale = true
  /\ pos stale = stop_distance (crossing RED 2)
  /\ dlt (of_int 0) (stop_distance (crossing RED 2)) = true
  /\ aget (lights (crossing RED 2)) (lane stale) = Some (light RED)
  /\ state (light RED) = RED
  /\ dlt (of_int 0) (of_int 1) = true
  /\ move_vehicle stale (crossing RED 2) (of_int 1) = Some (stale, 0)
  /\ total_wait stale = of_int 1
  /\ dadd (total_wait stale) (of_int 1) = of_int 2
  /\ (forall r, move_vehicle stale (crossing RED 2) (of_int 1) = Some r ->
                total_wait (fst r) <> dadd (total_wait stale) (of_int 1)).
Proof.
  repeat (split; [reflexivity|]).
  intros r [= <-]. discriminate.
Qed.

(** A run of two vehicles. *)
Lemma crossed_count_conservation_witness :
  2 <= Int32.INT_MAX
  /\ (forall s,
        reachable 8 RAND_MAX rand 2 (of_int 1) 7 s ->
        total_crossed s = count_finished (vehicles s))
  /\ (forall fuel s,
        run_loop fuel 2 (of_int 1) (init_sim 8 RAND_MAX rand 2 7) = Returned s ->
        total_crossed s = count_finished (vehicles s)
        /\ count_finished (vehicles s) = Z.of_nat (length (vehicles s))
        /\ (0 <= 2 -> total_crossed s = 2))
  /\ (forall fuel print_every r,
        run_simulation 8 RAND_MAX rand fuel 2 print_every (of_int 1) 7
        = Returned r ->
        0 <= 2 -> sm_crossed r = 2).
Proof.
  assert (H : 2 <= Int32.INT_MAX) by (unfold Int32.INT_MAX; lia).
  exact (conj H (crossed_count_conservation 8 RAND_MAX rand 2 (of_int 1) 7 H)).
Defined.

(** The state after five ticks of that run: the first vehicle has
    crossed, the second is held at the line. *)
Lemma one_shot_crossing_witness :
  let s := tick_results 2 (of_int 1) 5 (init_sim 8 RAND_MAX rand 2 7) in
  reachable 8 RAND_MAX rand 2 (of_int 1) 7 s
  /\ map finished (vehicles s) = [true; false]
  /\ (forall v, In v (vehicles s) -> crossings v = 0 \/ crossings v = 1)
  /\ (forall v X dt',
        In v (vehicles s) -> finished v = true ->
        move_vehicle v X dt' = Some (v, 0))
  /\ (forall i v n s',
        aget (vehicles s) i = Some v ->
        finished v = true ->
        ticks 2 (of_int 1) n s = Some s' ->
        aget (vehicles s') i = Some v).
Proof.
  intros s.
  assert (H : reachable 8 RAND_MAX rand 2 (of_int 1) 7 s).
  { apply reachable_tick_results; [constructor | vm_compute; reflexivity]. }
  assert (F : map finished (vehicles s) = [true; false])
    by (vm_compute; reflexivity).
  exact (conj H (conj F (one_shot_crossing 8 RAND_MAX rand 2 (of_int 1) 7 _ H))).
Defined.

(** The call on the first of two vehicles: it crosses; the second vehicle
    and the intersection are as before, and so it is in a memory whose
    other vehicle and whose light timer differ. *)
Lemma move_vehicle_frame_witness :
  let m := mkMemory [arriving; approaching] (crossing GREEN 2) in
  let m' := mkMemory
              [mkVehicle 0 0 (of_int 0) (of_int 5) false (of_int 0) 1 true;
               approaching] (crossing GREEN 2) in
  move_vehicle_mem 0 (of_int 1) m = Some (1, m')
  /\ (mem_X m' = mem_X m
      /\ length (mem_V m') = length (mem_V m)
      /\ forall j, j <> 0 -> aget (mem_V m') j = aget (mem_V m) j)
  /\ (forall m2,
        aget (mem_V m2) 0 = aget (mem_V m) 0 ->
        (forall v, aget (mem_V m) 0 = Some v ->
                   aget (lights (mem_X m2)) (lane v)
                   = aget (lights (mem_X m)) (lane v)) ->
        stop_distance (mem_X m2) = stop_distance (mem_X m) ->
        exists m2',
          move_vehicle_mem 0 (of_int 1) m2 = Some (1, m2')
          /\ aget (mem_V m2') 0 = aget (mem_V m') 0).
Proof.
  intros m m'.
  assert (H : move_vehicle_mem 0 (of_int 1) m = Some (1, m')) by reflexivity.
  exact (conj H (move_vehicle_frame 0 (of_int 1) m m' 1 H)).
Defined.

(** C8, counterexample.  On binary64, a light entering GREEN with a green
    duration of 1 s and [dt = 0.1]: all durations and [dt] are strictly
    positive and [10 * dt >= 1], yet after 10 updates the accumulated sum of
    ten tenths is 0.9999999999999999 and the light is still GREEN; it
    leaves GREEN at the 11th update.  The number of ticks spent in the
    phase, 11, is not the least [k] with [k * dt >= duration], and the
    time spent, [11 * dt], is not strictly less than [duration + dt]. *)
Lemma tenths_drift :
  dlt (of_int 0) tenth = true
  /\ dlt (of_int 0) (t_green quick) = true
  /\ dlt (of_int 0) (t_yellow quick) = true
  /\ dlt (of_int 0) (t_red quick) = true
  /\ time_in_state quick = of_int 0
  /\ dge (dmul (of_int 10) tenth) (duration quick) = true
  /\ state (updates 10 quick tenth) = state quick
  /\ state (updates 11 quick tenth) = next_phase (state quick)
  /\ dlt (dmul (of_int 11) tenth) (dadd (duration quick) tenth) = false.
Proof. repeat split. Qed.

(** C9, counterexample.  Two memories with the same vehicle array and
    the same lights, whose stop offsets are 2 m and 1 m: the vehicle,
    reaching the line under the same RED light, is put back at 2 m by
    the call in one and at 1 m by the call in the other.  What the call
    makes of [V[i]] is not determined by [V[i]] and the light of its lane
    alone. *)
Lemma stop_offset_is_read :
  let m2 := mkMemory [approaching] (crossing RED 2) in
  let m1 := mkMemory [approaching] (crossing RED 1) in
  mem_V m2 = mem_V m1
  /\ lights (mem_X m2) = lights (mem_X m1)
  /\ move_vehicle_mem 0 (of_int 1) m2
     = Some (0, mkMemory
                  [mkVehicle 0 0 (of_int 2) (of_int 3) true (of_int 1) 0 false]
                  (crossing RED 2))
  /\ move_vehicle_mem 0 (of_int 1) m1
     = Some (0, mkMemory
                  [mkVehicle 0 0 (of_int 1) (of_int 3) true (of_int 1) 0 false]
                  (crossing RED 1))
  /\ (forall a b, move_vehicle_mem 0 (of_int 1) m2 = Some a ->
                  move_vehicle_mem 0 (of_int 1) m1 = Some b ->
                  aget (mem_V (snd a)) 0 <> aget (mem_V (snd b)) 0).
Proof.
  intros m2 m1.
  assert (H2 : move_vehicle_mem 0 (of_int 1) m2
               = Some (0, mkMemory
                            [mkVehicle 0 0 (of_int 2) (of_int 3) true
                               (of_int 1) 0 false]
                            (crossing RED 2))) by reflexivity.
  assert (H1 : move_vehicle_mem 0 (of_int 1) m1
               = Some (0, mkMemory
                            [mkVehicle 0 0 (of_int 1) (of_int 3) true
                               (of_int 1) 0 false]
                            (crossing RED 1))) by reflexivity.
  split; [reflexivity|]. split; [reflexivity|].
  split; [exact H2|]. split; [exact H1|].
  intros a b. rewrite H2, H1. intros [= <-] [= <-].
  unfold aget; cbn. intros [= H].
Qed.


End OnBinary64.

Lemma choose_threads_formula_example :
  0 <= 8 <= Int32.INT_MAX - 15
  /\ 0 <= 2 <= Int32.INT_MAX
  /\ choose_threads 4 8 2 = team_size_formula 4 8 2.
Proof.
  assert (H1 : 0 <= 8 <= Int32.INT_MAX - 15) by (unfold Int32.INT_MAX; lia).
  assert (H2 : 0 <= 2 <= Int32.INT_MAX) by (unfold Int32.INT_MAX; lia).
  exact (conj H1 (conj H2 (choose_threads_formula 4 8 2 H1 H2))).
Defined.

Section OnRationals.

#[local] Existing Instance Exact.rational.
Import Scenario.

(** A light entering GREEN with durations 12, 3 and 15 seconds. *)
Lemma phase_time_between_entries_witness :
  (0 < 1)%Q
  /\ (0 < t_green (light GREEN))%Q
  /\ (0 < t_yellow (light GREEN))%Q
  /\ (0 < t_red (light GREEN))%Q
  /\ (time_in_state (light GREEN) == 0)%Q
  /\ exists k m : nat,
      (1 <= k)%nat
      /\ (forall j, (j < k)%nat ->
                    state (updates j (light GREEN) 1%Q) = state (light GREEN))
      /\ (forall j, (k <= j < k + m)%nat ->
                    state (updates j (light GREEN) 1%Q) <> state (light GREEN))
      /\ state (updates (k + m) (light GREEN) 1%Q) = state (light GREEN)
      /\ time_in_state (updates (k + m) (light GREEN) 1%Q) = of_int 0
      /\ (duration (light GREEN) <= span k 1)%Q
      /\ (span k 1 < duration (light GREEN) + 1)%Q
      /\ (forall j : nat,
            (duration (light GREEN) <= span j 1)%Q -> (k <= j)%nat).
Proof.
  assert (H1 : (0 < 1)%Q) by reflexivity.
  assert (H2 : (0 < t_green (light GREEN))%Q) by reflexivity.
  assert (H3 : (0 < t_yellow (light GREEN))%Q) by reflexivity.
  assert (H4 : (0 < t_red (light GREEN))%Q) by reflexivity.
  assert (H5 : (time_in_state (light GREEN) == 0)%Q) by reflexivity.
  exact (conj H1 (conj H2 (conj H3 (conj H4 (conj H5
           (phase_time_between_entries (light GREEN) 1%Q H1 H2 H3 H4 H5)))))).
Defined.

End OnRationals.

(** * Further properties of the code *)

(** ** The loop of the final metrics *)

Section MetricsLoop.

Context {D : Double}.

(** The loop, as a fold over the vehicles. *)
Lemma metrics_fold (N : Z) (V : list Vehicle) (acc : double * Z) :
  length V = Z.to_nat N ->
  c_for N (metrics V) acc
  = Some (fold_left
            (fun a v => (dadd (fst a) (total_wait v),
                         Int32.add (snd a) (crossings v))) V acc).
Proof.
  intros HV. unfold c_for. rewrite <- HV.
  apply (for_loop_fold V (metrics V)
           (fun a v => (dadd (fst a) (total_wait v),
                        Int32.add (snd a) (crossings v))))
    with (pre := []); [|reflexivity].
  intros i v a H. unfold metrics. now rewrite H.
Qed.

(** The two accumulators of the loop, each on its own. *)
Lemma metrics_fold_split (V : list Vehicle) (a : double) (c : Z) :
  fold_left
    (fun a v => (dadd (fst a) (total_wait v), Int32.add (snd a) (crossings v)))
    V (a, c)
  = (fold_left (fun a v => dadd a (total_wait v)) V a,
     fold_left (fun c v => Int32.add c (crossings v)) V c).
Proof.
  revert a c. induction V as [|v V IH]; intros a c; cbn; [reflexivity|].
  apply IH.
Qed.

End MetricsLoop.

(** ** No access outside an array *)

Section Safety.

Context {D : Double}.
Variables max_threads RAND_MAX : Z.
Variable rand : Z -> nat -> Z.

Lemma run_loop_defined (N : Z) (dt : double) :
  forall fuel s, wf_sim N s -> run_loop fuel N dt s <> Undefined.
Proof.
  induction fuel as [|fuel IH]; intros s Hwf; cbn;
    destruct (total_crossed s <? N); try discriminate.
  rewrite tick_closed_form by exact Hwf. apply IH. now apply tick_result_wf.
Qed.

(** X1.  No run reads or writes outside an array.  Whatever the vehicle
    count, the tick and the seed: every tick from every state of the run
    is defined (the lane [i % 4] of each vehicle indexes one of the four
    lights, and the loops stay inside [V], [crossed_now] and
    [X.lights]), and neither [run_simulation] nor [main] runs into an
    access out of bounds, the final metrics loop included.  (The
    allocations are taken to succeed.) *)
Theorem run_stays_in_bounds (N : Z) (dt : double) (seed : Z) :
  (forall s, reachable max_threads RAND_MAX rand N dt seed s ->
             exists s', tick N dt s = Some s')
  /\ (forall fuel print_every,
        run_simulation max_threads RAND_MAX rand fuel N print_every dt seed
        <> Undefined)
  /\ (forall fuel args now,
        main max_threads RAND_MAX rand fuel args now <> Undefined).
Proof.
  assert (Hrun : forall fuel n pe d sd,
             run_simulation max_threads RAND_MAX rand fuel n pe d sd
             <> Undefined).
  { intros fuel n pe d sd. unfold run_simulation.
    destruct (run_loop fuel n d (init_sim max_threads RAND_MAX rand n sd))
      as [s| |] eqn:E; [| |discriminate].
    - destruct (run_loop_reachable max_threads RAND_MAX rand n d sd fuel _ s
                  (reach_init _ _ _ _ _ _) E) as [Hr _].
      destruct (reachable_wf max_threads RAND_MAX rand n d sd s Hr)
        as (_ & HV & _).
      rewrite (metrics_fold n (vehicles s) _ HV).
      destruct (fold_left _ _ _). discriminate.
    - exfalso. apply (run_loop_defined n d fuel _ (init_sim_wf max_threads RAND_MAX rand n sd)).
      exact E. }
  split; [|split].
  - intros s Hs. eexists. apply tick_closed_form.
    eapply reachable_wf; eassumption.
  - intros fuel pe. apply Hrun.
  - intros fuel args now. unfold main.
    specialize (Hrun fuel (nth 0 args 8) (nth 1 args 1) (of_int 1)
                  (nth 2 args now)).
    destruct (run_simulation _ _ _ _ _ _ _ _); congruence.
Qed.

End Safety.

(** ** The figures of the final report *)

Section Report.

Context {D : Double}.
Variables max_threads RAND_MAX : Z.
Variable rand : Z -> nat -> Z.

(** Over one-shot vehicles the sum of the crossings is the number of
    finished vehicles. *)
Lemma crossings_sum (V : list Vehicle) (c : Z) :
  Forall one_shot V ->
  0 <= c -> c + Z.of_nat (length V) <= Int32.INT_MAX ->
  fold_left (fun c v => Int32.add c (crossings v)) V c
  = c + count_finished V.
Proof.
  intros H. revert c. induction H as [|v V [Hc _] _ IH]; intros c Hc0 Hmax.
  - unfold count_finished; cbn. lia.
  - cbn [fold_left length] in *. rewrite count_finished_cons.
    assert (Hb : 0 <= crossings v <= 1)
      by (rewrite Hc; destruct (finished v); cbn; lia).
    unfold Int32.add at 2.
    rewrite wrap_in_range by (unfold Int32.in_range, Int32.INT_MIN; lia).
    rewrite IH by lia. rewrite Hc. lia.
Qed.

(** X7.  The three counts of the final report agree.  When a run of
    [0 <= N <= INT_MAX] vehicles returns, the number of vehicles, the
    number of vehicles that crossed ([total_crossed]) and the sum of the
    [crossings] fields computed by the metrics loop are all [N]. *)
Theorem report_counts_agree (N : Z) (dt : double) (seed : Z) (fuel : nat)
    (print_every : Z) (r : Summary) :
  0 <= N <= Int32.INT_MAX ->
  run_simulation max_threads RAND_MAX rand fuel N print_every dt seed
  = Returned r ->
  sm_vehicles r = N /\ sm_crossed r = N /\ sm_total_crossings r = N.
Proof.
  intros HN. unfold run_simulation.
  destruct (run_loop fuel N dt (init_sim max_threads RAND_MAX rand N seed))
    as [s| |] eqn:E; try discriminate.
  destruct (run_loop_reachable max_threads RAND_MAX rand N dt seed fuel _ s
              (reach_init _ _ _ _ _ _) E) as [Hr Hge].
  destruct (reachable_inv max_threads RAND_MAX rand N dt seed s
              (proj2 HN) Hr) as [(_ & HV & _) Htc].
  pose proof (reachable_one_shot max_threads RAND_MAX rand N dt seed s Hr)
    as Hone.
  pose proof (count_finished_bounds (vehicles s)) as Hb.
  rewrite (metrics_fold N (vehicles s) _ HV), metrics_fold_split.
  intros [= <-]. cbn.
  rewrite crossings_sum by (try assumption; lia).
  repeat split; lia.
Qed.

End Report.

Section ReportOnRationals.

#[local] Existing Instance Exact.rational.
Import Scenario.

Lemma report_counts_agree_witness :
  0 <= 2 <= Int32.INT_MAX
  /\ run_simulation 8 RAND_MAX rand 60 2 1 1%Q 7
     = Returned (mkSummary 2 8 2 2 ((0 + 1 + 2) / inject_Z 2)%Q 8%Q)
  /\ sm_vehicles (mkSummary 2 8 2 2 ((0 + 1 + 2) / inject_Z 2)%Q 8%Q) = 2
  /\ sm_crossed (mkSummary 2 8 2 2 ((0 + 1 + 2) / inject_Z 2)%Q 8%Q) = 2
  /\ sm_total_crossings (mkSummary 2 8 2 2 ((0 + 1 + 2) / inject_Z 2)%Q 8%Q) = 2.
Proof.
  assert (H1 : 0 <= 2 <= Int32.INT_MAX) by (unfold Int32.INT_MAX; lia).
  assert (H2 : run_simulation 8 RAND_MAX rand 60 2 1 1%Q 7
               = Returned (mkSummary 2 8 2 2 ((0 + 1 + 2) / inject_Z 2)%Q 8%Q))
    by (vm_compute; reflexivity).
  exact (conj H1 (conj H2
           (report_counts_agree 8 RAND_MAX rand 2 1%Q 7 60 1 _ H1 H2))).
Defined.

End ReportOnRationals.

(** ** Where the vehicles of a run stand *)

Section Positions.

Context {D : Double}.
Variables max_threads RAND_MAX : Z.
Variable rand : Z -> nat -> Z.

(** One call keeps a waiting vehicle at the stop offset and a finished one
    at the line. *)
Lemma step_vehicle_parked (X : Intersection) (dt : double) (v : Vehicle) :
  (waiting v = true -> pos v = stop_distance X) ->
  (finished v = true -> pos v = of_int 0) ->
  let v' := fst (step_vehicle X dt v) in
  (waiting v' = true -> pos v' = stop_distance X)
  /\ (finished v' = true -> pos v' = of_int 0).
Proof.
  unfold step_vehicle, move_vehicle, count_wait.
  destruct v as [i l p sp w tw c f]; cbn.
  destruct f; cbn; [tauto|].
  destruct (aget (lights X) l) as [L|]; cbn; [|tauto].
  rewrite go_spec. intros Hw _.
  destruct (state L), w; cbn;
    repeat match goal with
      | |- context [dle ?a ?b] => destruct (dle a b); cbn
      end; intuition congruence.
Qed.

(** After a call, a vehicle that has not finished is strictly before the
    line, the stop offset being so. *)
Lemma step_vehicle_before_line (X : Intersection) (dt : double) (v : Vehicle) :
  0 <= lane v < Z.of_nat (length (lights X)) ->
  dle (stop_distance X) (of_int 0) = false ->
  let v' := fst (step_vehicle X dt v) in
  finished v' = false -> dle (pos v') (of_int 0) = false.
Proof.
  intros Hl Hs. unfold step_vehicle, move_vehicle, count_wait.
  destruct (aget_in_range (lights X) (lane v) Hl) as [L HL]. rewrite HL.
  destruct v as [i l p sp w tw c f]; cbn.
  destruct f; cbn; [discriminate|].
  rewrite go_spec.
  destruct (state L), w; cbn;
    repeat match goal with
      | |- context [dle ?a ?b] => destruct (dle a b) eqn:?; cbn
      end; intros; congruence.
Qed.

Lemma reachable_stop_distance (N : Z) (dt : double) (seed : Z) (s : Sim) :
  reachable max_threads RAND_MAX rand N dt seed s ->
  stop_distance (isect s) = of_int 2.
Proof.
  intros H. induction H as [|s s' Hr IH _ Ht]; [reflexivity|].
  rewrite tick_closed_form in Ht by (eapply reachable_wf; eassumption).
  injection Ht as <-. exact IH.
Qed.

Lemma reachable_parked (N : Z) (dt : double) (seed : Z) (s : Sim) :
  reachable max_threads RAND_MAX rand N dt seed s ->
  Forall (fun v => (waiting v = true -> pos v = of_int 2)
                   /\ (finished v = true -> pos v = of_int 0))
    (vehicles s).
Proof.
  intros H. induction H as [|s s' Hr IH _ Ht].
  - eapply Forall_impl; [|apply (init_vehicles_fresh max_threads RAND_MAX rand N seed)].
    intros v (Hf & Hw & _). split; congruence.
  - pose proof (reachable_stop_distance N dt seed s Hr) as Hs.
    rewrite tick_closed_form in Ht by (eapply reachable_wf; eassumption).
    injection Ht as <-. unfold tick_result; cbn [vehicles].
    rewrite map_map. apply Forall_map.
    eapply Forall_impl; [|exact IH]. cbn. intros v [Hw Hf].
    rewrite <- Hs.
    apply (step_vehicle_parked (lights_after dt (isect s)) dt v);
      [rewrite <- Hs in Hw; exact Hw | exact Hf].
Qed.

(** X4.  Where the vehicles of a run stand.  At every tick boundary the
    stop offset is [2.0]; a vehicle whose [waiting] flag is set stands
    exactly at the stop offset and has not finished; a finished vehicle
    stands exactly at [0.0], is not waiting and has [crossings = 1].  It
    holds in any arithmetic of [double]. *)
Theorem waiting_vehicles_at_stop_offset (N : Z) (dt : double) (seed : Z)
    (s : Sim) :
  reachable max_threads RAND_MAX rand N dt seed s ->
  stop_distance (isect s) = of_int 2
  /\ forall v, In v (vehicles s) ->
       (waiting v = true -> pos v = of_int 2 /\ finished v = false)
       /\ (finished v = true ->
           pos v = of_int 0 /\ waiting v = false /\ crossings v = 1).
Proof.
  intros Hr. split; [eapply reachable_stop_distance; eassumption|].
  intros v Hv.
  pose proof (reachable_parked N dt seed s Hr) as Hp.
  pose proof (reachable_one_shot max_threads RAND_MAX rand N dt seed s Hr)
    as Hone.
  rewrite Forall_forall in Hp, Hone.
  destruct (Hp v Hv) as [Hw Hf]. destruct (Hone v Hv) as [Hc Hfw].
  split.
  - intros W. split; [auto|].
    destruct (finished v); [|reflexivity].
    rewrite Hfw in W by reflexivity. discriminate.
  - intros F. rewrite Hc, F. auto.
Qed.

(** X5.  No vehicle is left at or past the line.  After every tick of a
    run, a vehicle that has not finished is strictly before the stop
    line (the comparison [pos <= 0.0] is false for it) and a finished one
    is at [0.0]: a vehicle that reaches the line either crosses or is put
    back at the stop offset in the same call.  The only fact of
    arithmetic used is that [2.0 <= 0.0] is false. *)
Theorem no_vehicle_left_past_the_line (N : Z) (dt : double) (seed : Z)
    (s s' : Sim) :
  dle (of_int 2) (of_int 0) = false ->
  reachable max_threads RAND_MAX rand N dt seed s ->
  tick N dt s = Some s' ->
  forall v, In v (vehicles s') ->
    if finished v then pos v = of_int 0
    else dle (pos v) (of_int 0) = false.
Proof.
  intros H2 Hr Ht v' Hv'.
  pose proof (reachable_wf max_threads RAND_MAX rand N dt seed s Hr) as Hwf.
  pose proof (reachable_stop_distance N dt seed s Hr) as Hs.
  pose proof (reachable_parked N dt seed s Hr) as Hp.
  rewrite tick_closed_form in Ht by exact Hwf. injection Ht as <-.
  unfold tick_result in Hv'; cbn [vehicles] in Hv'.
  rewrite map_map in Hv'. apply in_map_iff in Hv' as (v & <- & Hv).
  destruct Hwf as (Hnl & _ & _ & Hlanes).
  rewrite Forall_forall in Hp, Hlanes.
  destruct (Hp v Hv) as [Hw Hf]. specialize (Hlanes v Hv).
  set (X := lights_after dt (isect s)).
  destruct (finished (fst (step_vehicle X dt v))) eqn:F.
  - apply (step_vehicle_parked X dt v); [|exact Hf|exact F].
    intros W. rewrite (Hw W). symmetry. exact Hs.
  - apply (step_vehicle_before_line X dt v).
    + unfold X, lights_after; cbn [lights]. rewrite length_map. lia.
    + unfold X, lights_after; cbn [stop_distance]. now rewrite Hs.
    + exact F.
Qed.

End Positions.

Section PositionsOnBinary64.

#[local] Existing Instance IEEE.binary64.
Import Scenario.

(** The state after five ticks of the run of two vehicles: the first
    vehicle has crossed, the second is held at the line. *)
Lemma waiting_vehicles_at_stop_offset_witness :
  let s := tick_results 2 (of_int 1) 5 (init_sim 8 RAND_MAX rand 2 7) in
  reachable 8 RAND_MAX rand 2 (of_int 1) 7 s
  /\ map waiting (vehicles s) = [false; true]
  /\ map finished (vehicles s) = [true; false]
  /\ stop_distance (isect s) = of_int 2
  /\ forall v,
       In v (vehicles s) ->
       (waiting v = true -> pos v = of_int 2 /\ finished v = false)
       /\ (finished v = true ->
           pos v = of_int 0 /\ waiting v = false /\ crossings v = 1).
Proof.
  intros s.
  assert (H : reachable 8 RAND_MAX rand 2 (of_int 1) 7 s).
  { apply reachable_tick_results; [constructor | vm_compute; reflexivity]. }
  assert (W : map waiting (vehicles s) = [false; true])
    by (vm_compute; reflexivity).
  assert (F : map finished (vehicles s) = [true; false])
    by (vm_compute; reflexivity).
  exact (conj H (conj W (conj F
           (waiting_vehicles_at_stop_offset 8 RAND_MAX rand 2 (of_int 1) 7
              _ H)))).
Defined.

Lemma no_vehicle_left_past_the_line_witness :
  dle (of_int 2) (of_int 0) = false
  /\ reachable 8 RAND_MAX rand 2 (of_int 1) 7 (init_sim 8 RAND_MAX rand 2 7)
  /\ tick 2 (of_int 1) (init_sim 8 RAND_MAX rand 2 7)
     = Some (tick_result 2 (of_int 1) (init_sim 8 RAND_MAX rand 2 7))
  /\ forall v,
       In v (vehicles (tick_result 2 (of_int 1) (init_sim 8 RAND_MAX rand 2 7))) ->
       if finished v then pos v = of_int 0
       else dle (pos v) (of_int 0) = false.
Proof.
  assert (H1 : dle (of_int 2) (of_int 0) = false) by reflexivity.
  assert (H2 : reachable 8 RAND_MAX rand 2 (of_int 1) 7
                 (init_sim 8 RAND_MAX rand 2 7)) by constructor.
  assert (H3 : tick 2 (of_int 1) (init_sim 8 RAND_MAX rand 2 7)
               = Some (tick_result 2 (of_int 1) (init_sim 8 RAND_MAX rand 2 7)))
    by reflexivity.
  exact (conj H1 (conj H2 (conj H3
           (no_vehicle_left_past_the_line 8 RAND_MAX rand 2 (of_int 1) 7
              _ _ H1 H2 H3)))).
Defined.

End PositionsOnBinary64.

(** ** The crossing flags of a tick *)

Section CrossingFlags.

Context {D : Double}.
Variables max_threads RAND_MAX : Z.
Variable rand : Z -> nat -> Z.




(** ** What a run never changes *)

Lemma update_traffic_light_static (L : TrafficLight) (dt : double) :
  let L' := update_traffic_light L dt in
  light_id L' = light_id L /\ t_green L' = t_green L
  /\ t_yellow L' = t_yellow L /\ t_red L' = t_red L.
Proof.
  destruct L as [i st t g y r]; unfold update_traffic_light; cbn.
  destruct st; cbn;
    match goal with
    | |- context [if dge ?a ?b then _ else _] => destruct (dge a b)
    end; cbn; auto.
Qed.

Lemma step_vehicle_id (X : Intersection) (dt : double) (v : Vehicle) :
  vehicle_id (fst (step_vehicle X dt v)) = vehicle_id v.
Proof.
  unfold step_vehicle, move_vehicle, count_wait.
  destruct v as [i l p sp w tw c f]; cbn.
  destruct f; cbn; [reflexivity|].
  destruct (aget (lights X) l) as [L|]; cbn; [|reflexivity].
  destruct (go (state L)), w; cbn;
    repeat match goal with
      | |- context [dle ?a ?b] => destruct (dle a b); cbn
      end; reflexivity.
Qed.

(** X8.  What a run never changes.  At every tick boundary the
    intersection has its 4 lanes and 4 lights and the stop offset [2.0];
    every light has the identity and the three durations it was created
    with; every vehicle has the identity, the lane and the speed it was
    created with. *)
Theorem run_keeps_configuration (N : Z) (dt : double) (seed : Z) (s : Sim) :
  reachable max_threads RAND_MAX rand N dt seed s ->
  let s0 := init_sim max_threads RAND_MAX rand N seed in
  num_lanes (isect s) = 4 /\ num_lights (isect s) = 4
  /\ stop_distance (isect s) = of_int 2
  /\ map (fun L => (light_id L, t_green L, t_yellow L, t_red L))
       (lights (isect s))
     = map (fun L => (light_id L, t_green L, t_yellow L, t_red L))
         (lights (isect s0))
  /\ map (fun v => (vehicle_id v, lane v, speed v)) (vehicles s)
     = map (fun v => (vehicle_id v, lane v, speed v)) (vehicles s0).
Proof.
  intros H. induction H as [|s s' Hr IH _ Ht].
  - cbn. repeat split.
  - rewrite tick_closed_form in Ht by (eapply reachable_wf; eassumption).
    injection Ht as <-. cbn zeta in *.
    destruct IH as (H1 & H2 & H3 & H4 & H5).
    unfold tick_result, lights_after;
      cbn [isect vehicles num_lanes num_lights stop_distance lights].
    repeat split; try assumption.
    + rewrite <- H4, map_map. apply map_ext. intros L.
      destruct (update_traffic_light_static L dt) as (-> & -> & -> & ->).
      reflexivity.
    + rewrite <- H5, !map_map. apply map_ext. intros v. cbn [fst].
      now rewrite step_vehicle_id, step_vehicle_lane, step_vehicle_speed.
Qed.

End CrossingFlags.

Section CrossingFlagsOnBinary64.

#[local] Existing Instance IEEE.binary64.
Import Scenario.


Lemma run_keeps_configuration_witness :
  reachable 8 RAND_MAX rand 2 (of_int 1) 7
    (tick_result 2 (of_int 1) (init_sim 8 RAND_MAX rand 2 7))
  /\ (let s := tick_result 2 (of_int 1) (init_sim 8 RAND_MAX rand 2 7) in
      let s0 := init_sim 8 RAND_MAX rand 2 7 in
      num_lanes (isect s) = 4 /\ num_lights (isect s) = 4
      /\ stop_distance (isect s) = of_int 2
      /\ map (fun L => (light_id L, t_green L, t_yellow L, t_red L))
           (lights (isect s))
         = map (fun L => (light_id L, t_green L, t_yellow L, t_red L))
             (lights (isect s0))
      /\ map (fun v => (vehicle_id v, lane v, speed v)) (vehicles s)
         = map (fun v => (vehicle_id v, lane v, speed v)) (vehicles s0)).
Proof.
  assert (H : reachable 8 RAND_MAX rand 2 (of_int 1) 7
                (tick_result 2 (of_int 1) (init_sim 8 RAND_MAX rand 2 7))).
  { apply (reach_tick 8 RAND_MAX rand 2 (of_int 1) 7
             (init_sim 8 RAND_MAX rand 2 7)); [constructor| |]; reflexivity. }
  exact (conj H (run_keeps_configuration 8 RAND_MAX rand 2 (of_int 1) 7 _ H)).
Defined.

End CrossingFlagsOnBinary64.

(** ** The team size: bounds and monotonicity *)

(** X9.  The team size is a valid one.  Whatever the two counts (also
    where the [int] additions wrap), [choose_threads] returns at most
    [omp_get_max_threads()], and at least 1 if that maximum is at least
    1; with a maximum of 1 or less it returns the maximum. *)
Theorem choose_threads_bounds (M n g : Z) :
  choose_threads M n g <= M
  /\ (1 <= M -> 1 <= choose_threads M n g)
  /\ (M <= 1 -> choose_threads M n g = M).
Proof.
  unfold choose_threads.
  generalize (Int32.add (Int32.div (Int32.add n 15) 16)
                (if 0 <? g then Int32.add 1 (Int32.div g 2) else 1)).
  intros p.
  destruct (Z.ltb_spec p 1);
    match goal with
    | |- context [M <? ?x] => destruct (Z.ltb_spec M x)
    end; lia.
Qed.

Lemma team_size_formula_monotone (M n n' g g' : Z) :
  n <= n' -> 0 <= g <= g' ->
  team_size_formula M n g <= team_size_formula M n' g'.
Proof.
  intros Hn Hg. unfold team_size_formula, clamp.
  rewrite !ceil_div_16.
  assert (H1 : (n + 15) / 16 <= (n' + 15) / 16)
    by (apply Z.div_le_mono; lia).
  assert (H2 : g / 2 <= g' / 2) by (apply Z.div_le_mono; lia).
  assert (H3 : 0 <= g / 2) by (apply Z.div_pos; lia).
  destruct (Z.ltb_spec 0 g), (Z.ltb_spec 0 g'); lia.
Qed.

(** X10.  More vehicles or more green lights never give a smaller team:
    [choose_threads] is monotone in both arguments, for vehicle counts up
    to [INT_MAX - 15]. *)
Theorem choose_threads_monotone (M n n' g g' : Z) :
  0 <= n -> n <= n' -> n' <= Int32.INT_MAX - 15 ->
  0 <= g -> g <= g' -> g' <= Int32.INT_MAX ->
  choose_threads M n g <= choose_threads M n' g'.
Proof.
  intros. rewrite !choose_threads_formula by lia.
  apply team_size_formula_monotone; lia.
Qed.

Lemma choose_threads_monotone_witness :
  0 <= 16 /\ 16 <= 17 /\ 17 <= Int32.INT_MAX - 15
  /\ 0 <= 1 /\ 1 <= 2 /\ 2 <= Int32.INT_MAX
  /\ choose_threads 8 16 1 <= choose_threads 8 17 2.
Proof.
  assert (H1 : 0 <= 16) by lia.
  assert (H2 : 16 <= 17) by lia.
  assert (H3 : 17 <= Int32.INT_MAX - 15) by (unfold Int32.INT_MAX; lia).
  assert (H4 : 0 <= 1) by lia.
  assert (H5 : 1 <= 2) by lia.
  assert (H6 : 2 <= Int32.INT_MAX) by (unfold Int32.INT_MAX; lia).
  exact (conj H1 (conj H2 (conj H3 (conj H4 (conj H5 (conj H6
           (choose_threads_monotone 8 16 17 1 2 H1 H2 H3 H4 H5 H6))))))).
Defined.

(** ** What the initialisation builds *)

Section Initialisation.

Context {D : Double}.
Variable RAND_MAX : Z.
Variable rand : Z -> nat -> Z.

Lemma init_lights_nth (n : nat) (i seed : Z) (k j : nat) :
  (j < n)%nat ->
  nth_error (init_lights RAND_MAX rand n i seed k) j
  = Some (mkTrafficLight (i + Z.of_nat j)
            (if Int32.rem (i + Z.of_nat j) 2 =? 0 then GREEN else RED)
            (of_int 0)
            (rand_uniform RAND_MAX (of_int 5) (of_int 9)
               (rand seed (k + 3 * j)%nat))
            (rand_uniform RAND_MAX (of_int 2) (of_int 4)
               (rand seed (k + 3 * j + 1)%nat))
            (rand_uniform RAND_MAX (of_int 5) (of_int 9)
               (rand seed (k + 3 * j + 2)%nat))).
Proof.
  revert i k j. induction n as [|n IH]; intros i k j Hj; [lia|].
  destruct j as [|j]; cbn [init_lights nth_error].
  - now rewrite Z.add_0_r, Nat.mul_0_r, !Nat.add_0_r.
  - rewrite IH by lia.
    replace (i + 1 + Z.of_nat j) with (i + Z.of_nat (S j)) by lia.
    now replace (k + 3 + 3 * j)%nat with (k + 3 * S j)%nat by lia.
Qed.

Lemma init_vehicles_from_nth (n : nat) (i seed : Z) (k j : nat) :
  (j < n)%nat ->
  nth_error (init_vehicles_from RAND_MAX rand n i seed k) j
  = Some (mkVehicle (i + Z.of_nat j) (Int32.rem (i + Z.of_nat j) 4)
            (rand_uniform RAND_MAX (of_int 20) (of_int 200)
               (rand seed (k + 2 * j)%nat))
            (rand_uniform RAND_MAX (of_int 6) (of_int 14)
               (rand seed (k + 2 * j + 1)%nat))
            false (of_int 0) 0 false).
Proof.
  revert i k j. induction n as [|n IH]; intros i k j Hj; [lia|].
  destruct j as [|j]; cbn [init_vehicles_from nth_error].
  - now rewrite Z.add_0_r, Nat.mul_0_r, !Nat.add_0_r.
  - rewrite IH by lia.
    replace (i + 1 + Z.of_nat j) with (i + Z.of_nat (S j)) by lia.
    now replace (k + 2 + 2 * j)%nat with (k + 2 * S j)%nat by lia.
Qed.

(** X11.  What [init_intersection] builds.  The intersection has
    [num_lanes] lanes and as many lights (none if [num_lanes <= 0]) and
    the stop offset [2.0]; the light [i] has identity [i], starts GREEN
    if [i] is even and RED if it is odd, with its timer at [0.0]; its
    green, yellow and red durations are [rand_uniform(5.0, 9.0)],
    [rand_uniform(2.0, 4.0)] and [rand_uniform(5.0, 9.0)], drawn in this
    order from the calls [3i], [3i + 1] and [3i + 2] of [rand()] that the
    function makes; it makes [3 * num_lanes] calls in all. *)
Theorem init_intersection_spec (n seed : Z) (k : nat) :
  let X := fst (init_intersection RAND_MAX rand n seed k) in
  num_lanes X = n /\ num_lights X = n
  /\ stop_distance X = of_int 2
  /\ length (lights X) = Z.to_nat n
  /\ snd (init_intersection RAND_MAX rand n seed k) = (k + 3 * Z.to_nat n)%nat
  /\ forall i, 0 <= i < n ->
       aget (lights X) i
       = Some (mkTrafficLight i
                 (if Z.even i then GREEN else RED)
                 (of_int 0)
                 (rand_uniform RAND_MAX (of_int 5) (of_int 9)
                    (rand seed (k + 3 * Z.to_nat i)%nat))
                 (rand_uniform RAND_MAX (of_int 2) (of_int 4)
                    (rand seed (k + 3 * Z.to_nat i + 1)%nat))
                 (rand_uniform RAND_MAX (of_int 5) (of_int 9)
                    (rand seed (k + 3 * Z.to_nat i + 2)%nat))).
Proof.
  cbn. repeat split; try apply init_lights_length.
  intros i Hi. unfold aget.
  destruct (Z.ltb_spec i 0); [lia|].
  rewrite init_lights_nth by lia. rewrite Z.add_0_l, Z2Nat.id by lia.
  repeat f_equal. unfold Int32.rem.
  rewrite Z.rem_mod_nonneg by lia. rewrite Zeven_mod. reflexivity.
Qed.

(** The number of vehicles of a lane. *)
Lemma lane_count_from (l : Z) (n : nat) (i seed : Z) (k : nat) :
  0 <= l < 4 -> 0 <= i ->
  Z.of_nat (length (filter (fun v => lane v =? l)
                      (init_vehicles_from RAND_MAX rand n i seed k)))
  = (i + Z.of_nat n + 3 - l) / 4 - (i + 3 - l) / 4.
Proof.
  intros Hl. revert i k. induction n as [|n IH]; intros i k Hi.
  - cbn. rewrite Z.add_0_r. lia.
  - cbn [init_vehicles_from filter lane]. unfold Int32.rem.
    rewrite Z.rem_mod_nonneg by lia.
    destruct (Z.eqb_spec (i mod 4) l) as [E|E]; cbn [length];
      rewrite ?Nat2Z.inj_succ, IH by lia;
      Z.div_mod_to_equations; lia.
Qed.

(** X12.  What [init_vehicles] builds.  There are [N] vehicles (none if
    [N <= 0]); the vehicle [i] has identity [i] and lane [i mod 4]; its
    position and its speed are [rand_uniform(20.0, 200.0)] and
    [rand_uniform(6.0, 14.0)], drawn in this order from the calls [2i]
    and [2i + 1] of [rand()] that the function makes; it is neither
    waiting nor finished and its counters are zero.  The lanes are filled
    in turn: the lane [l] gets [(N + 3 - l) / 4] vehicles, so no lane has
    more than one vehicle more than another. *)
Theorem init_vehicles_spec (N seed : Z) (k : nat) :
  let V := init_vehicles RAND_MAX rand N seed k in
  length V = Z.to_nat N
  /\ (forall i, 0 <= i < N ->
        aget V i
        = Some (mkVehicle i (i mod 4)
                  (rand_uniform RAND_MAX (of_int 20) (of_int 200)
                     (rand seed (k + 2 * Z.to_nat i)%nat))
                  (rand_uniform RAND_MAX (of_int 6) (of_int 14)
                     (rand seed (k + 2 * Z.to_nat i + 1)%nat))
                  false (of_int 0) 0 false))
  /\ (forall l, 0 <= l < 4 ->
        Z.of_nat (length (filter (fun v => lane v =? l) V))
        = (Z.max 0 N + 3 - l) / 4).
Proof.
  cbn. unfold init_vehicles. split; [|split].
  - now destruct (init_vehicles_from_fresh RAND_MAX rand (Z.to_nat N) 0 seed k).
  - intros i Hi. unfold aget.
    destruct (Z.ltb_spec i 0); [lia|].
    rewrite init_vehicles_from_nth by lia.
    rewrite Z.add_0_l, Z2Nat.id by lia.
    unfold Int32.rem. now rewrite Z.rem_mod_nonneg by lia.
  - intros l Hl. rewrite lane_count_from by lia.
    rewrite ZifyInst.of_nat_to_nat_eq.
    replace (0 + 3 - l) with (3 - l) by lia.
    rewrite (Z.div_small (3 - l) 4) by lia.
    rewrite Z.add_0_l. lia.
Qed.

End Initialisation.

(** ** The timer of a light stays below the duration of its phase *)

Section LightTimer.

Context {D : Double}.

Lemma update_below_duration (L : TrafficLight) (dt : double) :
  dge (of_int 0) (t_green L) = false ->
  dge (of_int 0) (t_yellow L) = false ->
  dge (of_int 0) (t_red L) = false ->
  let L' := update_traffic_light L dt in
  dge (time_in_state L') (duration L') = false
  /\ t_green L' = t_green L /\ t_yellow L' = t_yellow L /\ t_red L' = t_red L.
Proof.
  destruct L as [i s t g y r]; unfold update_traffic_light, duration; cbn.
  intros Hg Hy Hr.
  destruct s; cbn;
    match goal with
    | |- context [if dge ?a ?b then _ else _] => destruct (dge a b) eqn:E
    end;
    cbn; repeat split; assumption.
Qed.

(** X14.  The timer of a light stays below the duration of its phase.
    For a light whose three durations are positive (the comparison
    [0.0 >= duration] is false), after any positive number of updates and
    for any tick [dt], the comparison [time_in_state >= duration] of the
    current phase is false: no light is ever left in a phase that is
    over.  It holds in any arithmetic of [double]. *)
Theorem light_timer_below_duration (L : TrafficLight) (dt : double) (n : nat) :
  dge (of_int 0) (t_green L) = false ->
  dge (of_int 0) (t_yellow L) = false ->
  dge (of_int 0) (t_red L) = false ->
  let L' := updates (S n) L dt in
  dge (time_in_state L') (duration L') = false.
Proof.
  revert L. induction n as [|n IH]; intros L Hg Hy Hr.
  - now apply update_below_duration.
  - destruct (update_below_duration L dt Hg Hy Hr) as (_ & Eg & Ey & Er).
    change (updates (S (S n)) L dt)
      with (updates (S n) (update_traffic_light L dt) dt).
    apply IH; congruence.
Qed.

End LightTimer.

Section LightTimerOnBinary64.

#[local] Existing Instance IEEE.binary64.
Import Scenario.

Lemma light_timer_below_duration_witness :
  dge (of_int 0) (t_green quick) = false
  /\ dge (of_int 0) (t_yellow quick) = false
  /\ dge (of_int 0) (t_red quick) = false
  /\ dge (time_in_state (updates 11 quick tenth))
       (duration (updates 11 quick tenth)) = false.
Proof.
  assert (H1 : dge (of_int 0) (t_green quick) = false) by reflexivity.
  assert (H2 : dge (of_int 0) (t_yellow quick) = false) by reflexivity.
  assert (H3 : dge (of_int 0) (t_red quick) = false) by reflexivity.
  exact (conj H1 (conj H2 (conj H3
           (light_timer_below_duration quick tenth 10 H1 H2 H3)))).
Defined.

End LightTimerOnBinary64.


Lemma wrap_add_l (a b : Z) : Int32.wrap (Int32.wrap a + b) = Int32.wrap (a + b).
Proof.
  unfold Int32.wrap.
  replace ((a + 2147483648) mod 4294967296 - 2147483648 + b + 2147483648)
    with ((a + 2147483648) mod 4294967296 + b) by lia.
  rewrite Zplus_mod_idemp_l. f_equal. f_equal. lia.
Qed.

(** ** The iterations of the parallel loops commute *)

Section Orders.

Lemma for_loop_iterate {S : Type} (body : Z -> S -> option S) (n : nat) :
  forall i s, for_loop n i body s = iterate body (indices n i) s.
Proof.
  induction n as [|n IH]; intros i s; cbn; [reflexivity|].
  destruct (body i s); [apply IH | reflexivity].
Qed.

(** If any two distinct iterations give the same in either order,
    undefined outcomes included, the loop gives the same in every order
    of its iterations. *)
Lemma iterate_permutation {S : Type} (body : Z -> S -> option S) :
  (forall i j s, i <> j ->
     match body i s with Some s' => body j s' | None => None end
     = match body j s with Some s' => body i s' | None => None end) ->
  forall l l', Permutation l l' ->
  forall s, iterate body l s = iterate body l' s.
Proof.
  intros Hc l l' H. induction H as [|x l l' _ IH|x y l|l l1 l2 _ IH1 _ IH2];
    intros s.
  - reflexivity.
  - cbn. destruct (body x s); [apply IH | reflexivity].
  - destruct (Z.eq_dec x y) as [->|Hxy]; [reflexivity|].
    cbn [iterate]. specialize (Hc x y s Hxy).
    destruct (body y s) as [s1|], (body x s) as [s2|];
      try rewrite Hc; try rewrite <- Hc; reflexivity.
  - now rewrite IH1.
Qed.

(** *** Arrays: writes at distinct indices *)

Lemma upd_comm {A : Type} (a : list A) (n m : nat) (x y : A) :
  n <> m -> upd (upd a n x) m y = upd (upd a m y) n x.
Proof.
  revert n m. induction a as [|z a IH]; intros [|n] [|m] H; cbn;
    try reflexivity; try lia.
  rewrite IH by lia. reflexivity.
Qed.

Lemma aset_spec {A : Type} (a : list A) (i : Z) (x : A) :
  aset a i x
  = match aget a i with
    | Some _ => Some (upd a (Z.to_nat i) x)
    | None => None
    end.
Proof.
  destruct (aget a i) as [y|] eqn:E.
  - exact (aset_defined a i x y E).
  - unfold aget, aset in *.
    destruct (Z.ltb_spec i 0) as [H|H].
    + destruct (Z.leb_spec 0 i); [lia | reflexivity].
    + apply nth_error_None in E.
      destruct (Z.leb_spec 0 i); [|lia].
      destruct (Z.ltb_spec i (Z.of_nat (length a))); [lia | reflexivity].
Qed.

(** Whether an index lies inside an array depends on its length only. *)
Lemma aget_defined_length {A B : Type} (a : list A) (b : list B) (i : Z) :
  length a = length b ->
  (aget a i = None <-> aget b i = None).
Proof.
  intros H. unfold aget. destruct (i <? 0); [tauto|].
  rewrite !nth_error_None, H. tauto.
Qed.

Lemma aget_upd_neq {A : Type} (a : list A) (i j : Z) (x : A) :
  i <> j -> 0 <= j -> aget (upd a (Z.to_nat j) x) i = aget a i.
Proof. intros. apply aget_upd_other. lia. Qed.

(** A body that rewrites the element [i] of an array, and is undefined
    outside it: two such iterations commute. *)
Lemma pointwise_commute {A : Type} (f : A -> A) (i j : Z) (a : list A) :
  i <> j ->
  let body := fun i a =>
    match aget a i with Some x => aset a i (f x) | None => None end in
  match body i a with Some a' => body j a' | None => None end
  = match body j a with Some a' => body i a' | None => None end.
Proof.
  intros Hij body. subst body. cbv beta.
  assert (Hnn : forall k (z : A), aget a k = Some z -> 0 <= k).
  { intros k z. unfold aget. destruct (Z.ltb_spec k 0); [discriminate|auto]. }
  destruct (aget a i) as [x|] eqn:Ei, (aget a j) as [y|] eqn:Ej;
    rewrite ?aset_spec, ?Ei, ?Ej.
  - rewrite (aget_upd_neq a j i (f x)), (aget_upd_neq a i j (f y)), Ei, Ej
      by eauto.
    rewrite !aset_spec.
    rewrite (aget_upd_neq a j i (f x)), (aget_upd_neq a i j (f y)), Ei, Ej
      by eauto.
    f_equal. apply upd_comm.
    pose proof (Hnn _ _ Ei). pose proof (Hnn _ _ Ej). lia.
  - rewrite (aget_upd_neq a j i (f x)) by eauto. now rewrite Ej.
  - rewrite (aget_upd_neq a i j (f y)) by eauto. now rewrite Ei.
  - reflexivity.
Qed.

End Orders.


Section TickOrders.

Context {D : Double}.
Variable max_threads : Z.

Lemma light_phase_commute (dt : double) (i j : Z) (ls : list TrafficLight) :
  i <> j ->
  match light_phase dt i ls with
  | Some ls' => light_phase dt j ls'
  | None => None
  end
  = match light_phase dt j ls with
    | Some ls' => light_phase dt i ls'
    | None => None
    end.
Proof.
  intros H.
  exact (pointwise_commute (fun L => update_traffic_light L dt) i j ls H).
Qed.

Lemma reset_phase_pointwise (i : Z) (cn : list Z) :
  reset_phase i cn
  = match aget cn i with Some x => aset cn i ((fun _ => 0) x) | None => None end.
Proof.
  unfold reset_phase. rewrite aset_spec. now destruct (aget cn i).
Qed.

Lemma reset_phase_commute (i j : Z) (cn : list Z) :
  i <> j ->
  match reset_phase i cn with Some cn' => reset_phase j cn' | None => None end
  = match reset_phase j cn with Some cn' => reset_phase i cn' | None => None end.
Proof.
  intros H. pose proof (pointwise_commute (fun _ : Z => 0) i j cn H) as P.
  cbv zeta beta in P.
  rewrite <- !reset_phase_pointwise in P.
  destruct (reset_phase i cn) as [c1|], (reset_phase j cn) as [c2|];
    rewrite ?reset_phase_pointwise; exact P.
Qed.

(** The body of the motion loop: the vehicle [i] is rewritten, the flag
    [i] is set if it crossed, and the flag returned is added to the
    counter. *)
Lemma motion_phase_spec (X : Intersection) (dt : double) (i : Z)
    (V : list Vehicle) (cn : list Z) (cs : Z) :
  motion_phase X dt i (V, cn, cs)
  = match aget V i with
    | None => None
    | Some v =>
        match move_vehicle v X dt with
        | None => None
        | Some (v', c) =>
            if c =? 0
            then Some (upd V (Z.to_nat i) v', cn, Int32.add cs c)
            else match aget cn i with
                 | Some _ =>
                     Some (upd V (Z.to_nat i) v', upd cn (Z.to_nat i) 1,
                           Int32.add cs c)
                 | None => None
                 end
        end
    end.
Proof.
  unfold motion_phase.
  destruct (aget V i) as [v|] eqn:Ev; [|reflexivity].
  destruct (move_vehicle v X dt) as [[v' c]|]; [|reflexivity].
  rewrite (aset_defined V i v' v Ev).
  destruct (c =? 0); [reflexivity|].
  rewrite aset_spec. now destruct (aget cn i).
Qed.

Lemma int32_add_swap (a b c : Z) :
  Int32.add (Int32.add a b) c = Int32.add (Int32.add a c) b.
Proof.
  unfold Int32.add. rewrite !wrap_add_l. f_equal. lia.
Qed.

Lemma motion_phase_commute (X : Intersection) (dt : double) (i j : Z)
    (st : list Vehicle * list Z * Z) :
  i <> j ->
  match motion_phase X dt i st with
  | Some st' => motion_phase X dt j st'
  | None => None
  end
  = match motion_phase X dt j st with
    | Some st' => motion_phase X dt i st'
    | None => None
    end.
Proof.
  intros Hij. destruct st as [[V cn] cs].
  assert (Hnn : forall (A : Type) (a : list A) k (z : A),
             aget a k = Some z -> 0 <= k).
  { intros A a k z. unfold aget.
    destruct (Z.ltb_spec k 0); [discriminate|auto]. }
  assert (Hlen : forall (A : Type) (a : list A) n (x : A) k,
             aget (upd a n x) k = None <-> aget a k = None).
  { intros. apply aget_defined_length, upd_length. }
  rewrite !motion_phase_spec.
  destruct (aget V i) as [vi|] eqn:Evi, (aget V j) as [vj|] eqn:Evj.
  - pose proof (Hnn _ _ _ _ Evi) as Hi. pose proof (Hnn _ _ _ _ Evj) as Hj.
    destruct (move_vehicle vi X dt) as [[vi' ci]|] eqn:Emi,
             (move_vehicle vj X dt) as [[vj' cj]|] eqn:Emj.
    + destruct (ci =? 0) eqn:Eci, (cj =? 0) eqn:Ecj;
        repeat first
          [ rewrite motion_phase_spec
          | rewrite (aget_upd_neq V j i) by auto
          | rewrite (aget_upd_neq V i j) by auto
          | rewrite (aget_upd_neq cn j i) by auto
          | rewrite (aget_upd_neq cn i j) by auto
          | rewrite Evi | rewrite Evj | rewrite Emi | rewrite Emj
          | rewrite Eci | rewrite Ecj ].
      * now rewrite (upd_comm V) by lia; rewrite int32_add_swap.
      * destruct (aget cn j) eqn:Ecnj;
          repeat first
            [ rewrite motion_phase_spec
            | rewrite (aget_upd_neq V j i) by auto
            | rewrite (aget_upd_neq V i j) by auto
            | rewrite Evi | rewrite Evj | rewrite Emi | rewrite Emj
            | rewrite Eci | rewrite Ecj | rewrite Ecnj ];
          try reflexivity.
        now rewrite (upd_comm V) by lia; rewrite int32_add_swap.
      * destruct (aget cn i) eqn:Ecni;
          repeat first
            [ rewrite motion_phase_spec
            | rewrite (aget_upd_neq V j i) by auto
            | rewrite (aget_upd_neq V i j) by auto
            | rewrite Evi | rewrite Evj | rewrite Emi | rewrite Emj
            | rewrite Eci | rewrite Ecj | rewrite Ecni ];
          try reflexivity.
        now rewrite (upd_comm V) by lia; rewrite int32_add_swap.
      * destruct (aget cn i) eqn:Ecni, (aget cn j) eqn:Ecnj;
          repeat first
            [ rewrite motion_phase_spec
            | rewrite (aget_upd_neq V j i) by auto
            | rewrite (aget_upd_neq V i j) by auto
            | rewrite (aget_upd_neq cn j i) by auto
            | rewrite (aget_upd_neq cn i j) by auto
            | rewrite Evi | rewrite Evj | rewrite Emi | rewrite Emj
            | rewrite Eci | rewrite Ecj | rewrite Ecni | rewrite Ecnj ];
          try reflexivity.
        now rewrite (upd_comm V), (upd_comm cn) by lia;
          rewrite int32_add_swap.
    + destruct (ci =? 0); [|destruct (aget cn i)];
        rewrite ?motion_phase_spec, ?(aget_upd_neq V j i), ?Evj, ?Emj by auto;
        reflexivity.
    + destruct (cj =? 0); [|destruct (aget cn j)];
        rewrite ?motion_phase_spec, ?(aget_upd_neq V i j), ?Evi, ?Emi by auto;
        reflexivity.
    + reflexivity.
  - pose proof (Hnn _ _ _ _ Evi) as Hi.
    destruct (move_vehicle vi X dt) as [[vi' ci]|]; [|reflexivity].
    destruct (ci =? 0); [|destruct (aget cn i)];
      rewrite ?motion_phase_spec, ?(aget_upd_neq V j i), ?Evj by auto;
      reflexivity.
  - pose proof (Hnn _ _ _ _ Evj) as Hj.
    destruct (move_vehicle vj X dt) as [[vj' cj]|]; [|reflexivity].
    destruct (cj =? 0); [|destruct (aget cn j)];
      rewrite ?motion_phase_spec, ?(aget_upd_neq V i j), ?Evi by auto;
      reflexivity.
  - reflexivity.
Qed.

(** X2.  The iterations of the three [parallel for] loops of a tick may
    run in any order.  Whatever the order in which the lights are
    updated, the crossing flags cleared and the vehicles moved (each
    index once), the tick ends in the same state as with the iterations
    in index order, the reduction [crossed_step] included; and it is
    undefined in one order exactly when it is in the other.  It holds for
    every state, well formed or not. *)
Theorem tick_order_independent (ol oc ov : list Z) (N : Z) (dt : double)
    (s : Sim) :
  Permutation ol (indices (Z.to_nat (num_lights (isect s))) 0) ->
  Permutation oc (indices (Z.to_nat N) 0) ->
  Permutation ov (indices (Z.to_nat N) 0) ->
  tick_in_order ol oc ov N dt s = tick N dt s.
Proof.
  intros Hl Hc Hv. unfold tick_in_order, tick, c_for.
  destruct (for_loop _ 0 (count_green (isect s)) 0); [|reflexivity].
  rewrite (iterate_permutation (light_phase dt)
             (fun i j ls H => light_phase_commute dt i j ls H) _ _ Hl).
  rewrite <- for_loop_iterate.
  destruct (for_loop _ 0 (light_phase dt) (lights (isect s))) as [ls|];
    [|reflexivity].
  rewrite (iterate_permutation reset_phase
             (fun i j cn H => reset_phase_commute i j cn H) _ _ Hc).
  rewrite <- for_loop_iterate.
  destruct (for_loop _ 0 reset_phase (crossed_now s)) as [cn|]; [|reflexivity].
  rewrite (iterate_permutation (motion_phase _ dt)
             (fun i j st H => motion_phase_commute _ dt i j st H) _ _ Hv).
  now rewrite <- for_loop_iterate.
Qed.

End TickOrders.

Section TickOrdersOnBinary64.

#[local] Existing Instance IEEE.binary64.
Import Scenario.

Lemma tick_order_independent_witness :
  Permutation [1; 0; 3; 2]
    (indices (Z.to_nat (num_lights (isect (init_sim 8 RAND_MAX rand 2 7)))) 0)
  /\ Permutation [1; 0] (indices (Z.to_nat 2) 0)
  /\ tick_in_order [1; 0; 3; 2] [1; 0] [1; 0] 2 (of_int 1)
       (init_sim 8 RAND_MAX rand 2 7)
     = tick 2 (of_int 1) (init_sim 8 RAND_MAX rand 2 7).
Proof.
  assert (H1 : Permutation [1; 0; 3; 2]
                 (indices (Z.to_nat (num_lights
                    (isect (init_sim 8 RAND_MAX rand 2 7)))) 0)).
  { cbn. apply (perm_trans (perm_swap 0 1 [3; 2])).
    do 2 apply perm_skip. apply perm_swap. }
  assert (H2 : Permutation [1; 0] (indices (Z.to_nat 2) 0)).
  { cbn. apply perm_swap. }
  exact (conj H1 (conj H2
           (tick_order_independent _ _ _ 2 (of_int 1) _ H1 H2 H2))).
Defined.

End TickOrdersOnBinary64.

(** ** The output of a run *)

Section Emit.

Context {A L : Type}.

(** A loop that prints one line for each element of an array. *)
Lemma for_loop_emit (a : list A) (body : Z -> list L -> option (list L))
    (g : Z -> A -> L) :
  (forall i x out, aget a i = Some x -> body i out = Some (out ++ [g i x])) ->
  forall rest pre out,
    a = pre ++ rest ->
    for_loop (length rest) (Z.of_nat (length pre)) body out
    = Some (out ++ map (fun p => g (fst p) (snd p))
                     (combine (indices (length rest) (Z.of_nat (length pre)))
                        rest)).
Proof.
  intros Hb. induction rest as [|x rest IH]; intros pre out Ha.
  - cbn. now rewrite app_nil_r.
  - cbn [length for_loop indices combine map fst snd].
    rewrite (Hb _ x) by (subst a; apply aget_app).
    replace (Z.of_nat (length pre) + 1) with (Z.of_nat (length (pre ++ [x])))
      by (rewrite length_app; cbn; lia).
    rewrite (IH (pre ++ [x])) by (now rewrite <- app_assoc).
    now rewrite <- app_assoc.
Qed.

Lemma c_for_emit (a : list A) (N : Z) (body : Z -> list L -> option (list L))
    (g : Z -> A -> L) (out : list L) :
  (forall i x out, aget a i = Some x -> body i out = Some (out ++ [g i x])) ->
  length a = Z.to_nat N ->
  c_for N body out
  = Some (out ++ map (fun p => g (fst p) (snd p))
                   (combine (indices (length a) 0) a)).
Proof.
  intros Hb Hl. unfold c_for. rewrite <- Hl.
  exact (for_loop_emit a body g Hb a [] out eq_refl).
Qed.

End Emit.

Lemma aget_combine {A B : Type} (a : list A) (b : list B) (i : Z) (x : A)
    (y : B) :
  aget (combine a b) i = Some (x, y) -> aget a i = Some x /\ aget b i = Some y.
Proof.
  unfold aget. destruct (i <? 0); [discriminate|].
  generalize (Z.to_nat i) as n. revert b.
  induction a as [|x0 a IH]; intros [|y0 b] [|n]; cbn; try discriminate.
  - intros [= -> ->]. now split.
  - apply IH.
Qed.

Lemma map_indexed_snd {A B : Type} (h : A -> B) (l : list A) (z : Z) :
  map (fun p => h (snd p)) (combine (indices (length l) z) l) = map h l.
Proof.
  revert z. induction l as [|x l IH]; intros z; cbn; [reflexivity|].
  now rewrite IH.
Qed.

Section OutputFacts.

Context {D : Double}.
Variables max_threads RAND_MAX : Z.
Variable rand : Z -> nat -> Z.

Lemma print_state_spec (k : Z) (t : double) (V : list Vehicle) (cn : list Z)
    (N : Z) (X : Intersection) :
  length V = Z.to_nat N -> length cn = Z.to_nat N ->
  num_lights X = Z.of_nat (length (lights X)) ->
  print_state k t V (Some cn) N X
  = Some (state_title k t
          :: map (fun p => vehicle_line (fst p) (negb (snd p =? 0)))
               (combine V cn)
          ++ map (fun p => light_line (fst p) (state_to_str (state (snd p)))
                            (time_in_state (snd p)))
               (combine (indices (length (lights X)) 0) (lights X))
          ++ [blank_line]).
Proof.
  intros HV Hcn HX. unfold print_state.
  rewrite (c_for_emit (combine V cn) N (print_state_vehicle V (Some cn))
             (fun _ p => vehicle_line (fst p) (negb (snd p =? 0)))).
  - rewrite (c_for_emit (lights X) (num_lights X) (print_state_light X)
               (fun i L => light_line i (state_to_str (state L))
                             (time_in_state L))).
    + cbn beta.
      rewrite (map_indexed_snd
                 (fun p => vehicle_line (fst p) (negb (snd p =? 0)))).
      cbn [app]. now rewrite <- !app_assoc.
    + intros i L out H. unfold print_state_light. now rewrite H.
    + rewrite HX. now rewrite Nat2Z.id.
  - intros i [v c] out H. apply aget_combine in H as [Hv Hc].
    unfold print_state_vehicle. now rewrite Hc, Hv.
  - rewrite length_combine, HV, Hcn. lia.
Qed.

Lemma print_configuration_spec (V : list Vehicle) (N : Z) (X : Intersection) :
  length V = Z.to_nat N ->
  num_lights X = Z.of_nat (length (lights X)) ->
  print_configuration V N X
  = Some (configuration_title
          :: map (fun v => configuration_vehicle (vehicle_id v) (lane v)
                             (speed v) (pos v)) V
          ++ map (fun p => configuration_light (fst p)
                             (state_to_str (state (snd p))) (t_red (snd p))
                             (t_green (snd p)) (t_yellow (snd p)))
               (combine (indices (length (lights X)) 0) (lights X))
          ++ [blank_line]).
Proof.
  intros HV HX. unfold print_configuration.
  rewrite (c_for_emit V N (print_configuration_vehicle V)
             (fun _ v => configuration_vehicle (vehicle_id v) (lane v)
                           (speed v) (pos v))).
  - rewrite (c_for_emit (lights X) (num_lights X)
               (print_configuration_light X)
               (fun i L => configuration_light i (state_to_str (state L))
                             (t_red L) (t_green L) (t_yellow L))).
    + cbn beta.
      rewrite (map_indexed_snd
                 (fun v => configuration_vehicle (vehicle_id v) (lane v)
                             (speed v) (pos v))).
      cbn [app]. now rewrite <- !app_assoc.
    + intros i L out H. unfold print_configuration_light. now rewrite H.
    + rewrite HX. now rewrite Nat2Z.id.
  - intros i v out H. unfold print_configuration_vehicle. now rewrite H.
  - exact HV.
Qed.

(** What the end of a tick prints, on a well-formed state. *)
Lemma print_tick_spec (N print_every : Z) (s : Sim) :
  wf_sim N s ->
  print_tick N print_every s
  = Some (if (0 <? print_every) && (Int32.rem (step s) print_every =? 0)
          then state_title (step s) (sim_time s)
               :: map (fun p => vehicle_line (fst p) (negb (snd p =? 0)))
                    (combine (vehicles s) (crossed_now s))
               ++ map (fun p => light_line (fst p)
                                  (state_to_str (state (snd p)))
                                  (time_in_state (snd p)))
                    (combine (indices (length (lights (isect s))) 0)
                       (lights (isect s)))
               ++ [blank_line; threads_line (threads s) (nthreads_var s)]
          else []).
Proof.
  intros (HX & HV & Hcn & _). unfold print_tick.
  destruct ((0 <? print_every) && (Int32.rem (step s) print_every =? 0));
    [|reflexivity].
  rewrite (print_state_spec _ _ _ _ N _ HV Hcn HX).
  cbn [app]. now rewrite <- !app_assoc.
Qed.

(** The loop with its output runs as the loop without: printing reads
    inside the arrays and changes nothing. *)
Lemma run_loop_out_state (N print_every : Z) (dt : double) :
  forall fuel s out,
    wf_sim N s ->
    match run_loop_out fuel N print_every dt s out with
    | Returned (s', _) => run_loop fuel N dt s = Returned s'
    | Undefined => False
    | OutOfFuel => run_loop fuel N dt s = OutOfFuel
    end.
Proof.
  induction fuel as [|fuel IH]; intros s out Hwf; cbn;
    destruct (total_crossed s <? N); try reflexivity.
  rewrite tick_closed_form by exact Hwf.
  pose proof (tick_result_wf N dt s Hwf) as Hwf'.
  rewrite (print_tick_spec N print_every _ Hwf').
  apply IH, Hwf'.
Qed.

Lemma run_simulation_out_agrees (fuel : nat) (N print_every : Z) (dt : double)
    (seed : Z) (wall : double) :
  match run_simulation_out max_threads RAND_MAX rand fuel N print_every dt
          seed wall with
  | Returned (r, _) =>
      run_simulation max_threads RAND_MAX rand fuel N print_every dt seed
      = Returned r
  | Undefined => False
  | OutOfFuel =>
      run_simulation max_threads RAND_MAX rand fuel N print_every dt seed
      = OutOfFuel
  end.
Proof.
  unfold run_simulation_out, run_simulation.
  pose proof (init_sim_wf max_threads RAND_MAX rand N seed) as Hwf.
  destruct Hwf as (HX & HV & Hcn & Hl).
  rewrite (print_configuration_spec _ N _ HV HX).
  match goal with
  | |- context [run_loop_out _ _ _ _ ?s ?o] =>
      pose proof (run_loop_out_state N print_every dt fuel s o
                    (conj HX (conj HV (conj Hcn Hl)))) as H;
      destruct (run_loop_out fuel N print_every dt s o)
        as [[s' out]| |]
  end; [|exact H|now rewrite H].
  rewrite H.
  destruct (c_for N (metrics (vehicles s')) (of_int 0, 0)) as [[a c]|] eqn:E;
    [reflexivity|].
  destruct (run_loop_reachable max_threads RAND_MAX rand N dt seed fuel _ s'
              (reach_init _ _ _ _ _ _) H) as [Hr _].
  destruct (reachable_wf max_threads RAND_MAX rand N dt seed s' Hr)
    as (_ & HV' & _).
  rewrite (metrics_fold N (vehicles s') _ HV') in E. discriminate.
Qed.

(** X19.  Printing reads inside the arrays and changes nothing.
    [run_simulation] with its output never runs into an access out of
    bounds in [print_configuration] or [print_state]; it returns the
    report that the run without output returns, and runs out of budget
    exactly when that does.  [main] prints the line of the maximum team
    size first and exits with status 0. *)
Theorem output_agrees_with_run (fuel : nat) (N print_every : Z) (dt : double)
    (seed : Z) (wall : double) (args : list Z) (now : Z) :
  match run_simulation_out max_threads RAND_MAX rand fuel N print_every dt
          seed wall with
  | Returned (r, _) =>
      run_simulation max_threads RAND_MAX rand fuel N print_every dt seed
      = Returned r
  | Undefined => False
  | OutOfFuel =>
      run_simulation max_threads RAND_MAX rand fuel N print_every dt seed
      = OutOfFuel
  end
  /\ match main_out max_threads RAND_MAX rand fuel args now wall with
     | Returned (out, status) =>
         status = 0
         /\ hd_error out = Some (max_threads_line max_threads)
         /\ exists r, main max_threads RAND_MAX rand fuel args now
                      = Returned (r, 0)
     | Undefined => False
     | OutOfFuel => main max_threads RAND_MAX rand fuel args now = OutOfFuel
     end.
Proof.
  split; [apply run_simulation_out_agrees|].
  unfold main_out, main.
  pose proof (run_simulation_out_agrees fuel (nth 0 args 8) (nth 1 args 1)
                (of_int 1) (nth 2 args now) wall) as H.
  destruct (run_simulation_out max_threads RAND_MAX rand fuel (nth 0 args 8)
              (nth 1 args 1) (of_int 1) (nth 2 args now) wall)
    as [[r out]| |]; [|exact H|now rewrite H].
  rewrite H. repeat split. now exists r.
Qed.

(** *** Counting the lines of an output *)

Lemma crossing_reports_app (i : Z) (a b : list Line) :
  crossing_reports i (a ++ b) = crossing_reports i a + crossing_reports i b.
Proof.
  unfold crossing_reports. rewrite filter_app, length_app. lia.
Qed.

Lemma crossing_reports_none (i : Z) (out : list Line) :
  Forall (fun l => match l with vehicle_crossed_now _ _ => False | _ => True end)
    out ->
  crossing_reports i out = 0.
Proof.
  intros H. unfold crossing_reports.
  induction H as [|l out Hl _ IH]; [reflexivity|].
  cbn [filter]. now destruct l.
Qed.

Lemma reported_steps_app (a b : list Line) :
  reported_steps (a ++ b) = reported_steps a ++ reported_steps b.
Proof. apply flat_map_app. Qed.

Lemma reported_steps_none (out : list Line) :
  Forall (fun l => match l with state_title _ _ => False | _ => True end) out ->
  reported_steps out = [].
Proof.
  intros H. unfold reported_steps.
  induction H as [|l out Hl _ IH]; [reflexivity|].
  cbn [flat_map]. rewrite IH. now destruct l.
Qed.

Lemma nth_error_combine {A B : Type} (a : list A) (b : list B) (j : nat) :
  nth_error (combine a b) j
  = match nth_error a j, nth_error b j with
    | Some x, Some y => Some (x, y)
    | _, _ => None
    end.
Proof.
  revert b j. induction a as [|x a IH]; intros [|y b] [|j]; cbn;
    try reflexivity.
  - now destruct (nth_error a j).
  - apply IH.
Qed.

Lemma crossing_reports_cons (i : Z) (l : Line) (out : list Line) :
  crossing_reports i (l :: out)
  = (match l with
     | vehicle_crossed_now id _ => if id =? i then 1 else 0
     | _ => 0
     end) + crossing_reports i out.
Proof.
  unfold crossing_reports. cbn [filter].
  destruct l; try reflexivity.
  destruct (id =? i); cbn [length]; lia.
Qed.

(** Among the vehicle lines of a state report, the vehicle [t] is reported
    as crossing exactly when its crossing flag is set, the identities of
    the vehicles being their positions in the array. *)
Lemma vehicle_lines_reports (t : Z) (V : list Vehicle) :
  forall (cn : list Z) (off : Z),
    (forall k v, nth_error V k = Some v -> vehicle_id v = off + Z.of_nat k) ->
    crossing_reports t
      (map (fun p => vehicle_line (fst p) (negb (snd p =? 0))) (combine V cn))
    = if t <? off then 0
      else match nth_error (combine V cn) (Z.to_nat (t - off)) with
           | Some (_, c) => if c =? 0 then 0 else 1
           | None => 0
           end.
Proof.
  induction V as [|v V IH]; intros cn off Hid.
  - cbn. destruct (t <? off); [reflexivity|]. now destruct (Z.to_nat (t - off)).
  - destruct cn as [|c cn].
    { cbn. destruct (t <? off); [reflexivity|].
      now destruct (Z.to_nat (t - off)). }
    cbn [combine map fst snd]. rewrite crossing_reports_cons.
    pose proof (Hid O v eq_refl) as Hv. cbn in Hv. rewrite Z.add_0_r in Hv.
    rewrite (IH cn (off + 1))
      by (intros k w Hk; rewrite (Hid (S k) w Hk); lia).
    unfold vehicle_line.
    destruct (Z.ltb_spec t off) as [Hlt|Hge].
    + destruct (Z.ltb_spec t (off + 1)); [|lia].
      destruct (negb (c =? 0)); [|destruct (finished v); reflexivity].
      rewrite Hv. destruct (Z.eqb_spec off t); [lia|reflexivity].
    + destruct (Z.eq_dec t off) as [->|Hne].
      * destruct (Z.ltb_spec off (off + 1)); [|lia].
        rewrite Z.sub_diag. cbn [Z.to_nat nth_error].
        destruct (c =? 0); cbn [negb];
          [destruct (finished v); reflexivity|].
        rewrite Hv, Z.eqb_refl. reflexivity.
      * destruct (Z.ltb_spec t (off + 1)); [lia|].
        replace (Z.to_nat (t - off)) with (S (Z.to_nat (t - (off + 1))))
          by lia.
        cbn [nth_error].
        destruct (negb (c =? 0)); [|destruct (finished v); reflexivity].
        rewrite Hv. destruct (Z.eqb_spec off t); [lia|reflexivity].
Qed.

Lemma combine_map {A B C : Type} (f : A -> B) (g : A -> C) (l : list A) :
  combine (map f l) (map g l) = map (fun x => (f x, g x)) l.
Proof. induction l as [|x l IH]; cbn; [reflexivity | now rewrite IH]. Qed.

(** What the report of the state after a tick says of the vehicle [j]:
    that it crosses, if it finished in this tick and the state is
    printed. *)
Lemma print_tick_reports (N print_every : Z) (dt : double) (s : Sim)
    (j : nat) (v : Vehicle) :
  wf_sim N s ->
  (forall k w, nth_error (vehicles s) k = Some w -> vehicle_id w = Z.of_nat k) ->
  nth_error (vehicles s) j = Some v ->
  let s' := tick_result N dt s in
  let v' := fst (step_vehicle (isect s') dt v) in
  match print_tick N print_every s' with
  | Some ls =>
      crossing_reports (Z.of_nat j) ls
      = if (0 <? print_every) && (Int32.rem (step s') print_every =? 0)
        then Z.b2z (finished v') - Z.b2z (finished v)
        else 0
  | None => False
  end.
Proof.
  intros Hwf Hid Hj s' v'.
  pose proof (tick_result_wf N dt s Hwf) as Hwf'. fold s' in Hwf'.
  rewrite (print_tick_spec N print_every s' Hwf').
  destruct ((0 <? print_every) && (Int32.rem (step s') print_every =? 0));
    [|reflexivity].
  rewrite crossing_reports_cons, !crossing_reports_app, Z.add_0_l.
  rewrite (crossing_reports_none _ (map _ (combine (indices _ _) _)))
    by (apply Forall_map, Forall_forall; intros; exact I).
  rewrite (crossing_reports_none _ [blank_line; _])
    by (repeat constructor).
  rewrite (vehicle_lines_reports (Z.of_nat j) (vehicles s') (crossed_now s') 0).
  - destruct (Z.ltb_spec (Z.of_nat j) 0); [lia|].
    rewrite Z.sub_0_r, Nat2Z.id.
    unfold s', tick_result; cbn [vehicles crossed_now].
    rewrite (map_map (step_vehicle _ dt) fst), (map_map (step_vehicle _ dt) _).
    rewrite combine_map, nth_error_map, Hj. cbn [option_map].
    destruct (step_vehicle_flag (lights_after dt (isect s)) dt v) as [Hc Hm].
    unfold v', s', tick_result; cbn [isect].
    rewrite Hc.
    destruct (finished v); [rewrite Hm by reflexivity; reflexivity|].
    destruct (finished (fst (step_vehicle (lights_after dt (isect s)) dt v)));
      reflexivity.
  - intros k w Hk. unfold s', tick_result in Hk; cbn [vehicles] in Hk.
    rewrite map_map, nth_error_map in Hk.
    destruct (nth_error (vehicles s) k) as [w0|] eqn:E; [|discriminate].
    injection Hk as <-. cbn [fst].
    rewrite step_vehicle_id, (Hid k w0 E). lia.
Qed.

(** The reports of crossing in the output of the loop: at most one for
    each vehicle, none for a vehicle that has not finished, and, the state
    being printed at every tick, one for each vehicle that has. *)
Lemma run_loop_out_reports (N print_every : Z) (dt : double) :
  0 <= N <= Int32.INT_MAX ->
  forall fuel s out s' out',
    boundary_inv N s ->
    (forall k w, nth_error (vehicles s) k = Some w -> vehicle_id w = Z.of_nat k) ->
    (forall k w, nth_error (vehicles s) k = Some w ->
                 0 <= crossing_reports (Z.of_nat k) out <= Z.b2z (finished w)
                 /\ (print_every = 1 ->
                     crossing_reports (Z.of_nat k) out = Z.b2z (finished w))) ->
    run_loop_out fuel N print_every dt s out = Returned (s', out') ->
    boundary_inv N s'
    /\ N <= total_crossed s'
    /\ (forall k w, nth_error (vehicles s') k = Some w ->
                    0 <= crossing_reports (Z.of_nat k) out'
                    <= Z.b2z (finished w)
                    /\ (print_every = 1 ->
                        crossing_reports (Z.of_nat k) out'
                        = Z.b2z (finished w))).
Proof.
  intros HN. induction fuel as [|fuel IH]; intros s out s' out' Hb Hid Hinv; cbn;
    destruct (Z.ltb_spec (total_crossed s) N) as [Hlt|Hge];
    try discriminate;
    try (intros [= <- <-]; auto).
  pose proof (proj1 Hb) as Hwf.
  rewrite tick_closed_form by exact Hwf.
  set (s1 := tick_result N dt s).
  pose proof (tick_result_wf N dt s Hwf) as Hwf1. fold s1 in Hwf1.
  rewrite (print_tick_spec N print_every s1 Hwf1).
  apply IH.
  - now apply tick_result_inv.
  - intros k w Hk. unfold s1, tick_result in Hk; cbn [vehicles] in Hk.
    rewrite map_map, nth_error_map in Hk.
    destruct (nth_error (vehicles s) k) as [w0|] eqn:E; [|discriminate].
    injection Hk as <-. cbn [fst]. rewrite step_vehicle_id. eauto.
  - intros k w1 Hk.
    assert (Hk0 : exists w, nth_error (vehicles s) k = Some w
                            /\ w1 = fst (step_vehicle (isect s1) dt w)).
    { unfold s1, tick_result in Hk; cbn [vehicles] in Hk.
      rewrite map_map, nth_error_map in Hk.
      destruct (nth_error (vehicles s) k) as [w0|] eqn:E; [|discriminate].
      injection Hk as <-. eauto. }
    destruct Hk0 as (w & Hw & ->).
    pose proof (print_tick_reports N print_every dt s k w Hwf Hid Hw)
      as Hcount.
    cbv zeta in Hcount. fold s1 in Hcount.
    rewrite (print_tick_spec N print_every s1 Hwf1) in Hcount.
    rewrite crossing_reports_app, Hcount.
    destruct (Hinv k w Hw) as [Hle Heq].
    destruct (step_vehicle_flag (isect s1) dt w) as [_ Hm].
    split.
    + destruct ((0 <? print_every) && (Int32.rem (step s1) print_every =? 0));
        destruct (finished w);
        try rewrite Hm by reflexivity;
        destruct (finished (fst (step_vehicle (isect s1) dt w)));
        cbn [Z.b2z] in *; lia.
    + intros ->. rewrite Heq by reflexivity.
      unfold Int32.rem. rewrite Z.rem_1_r. cbn [Z.ltb Z.compare andb Z.eqb].
      lia.
Qed.

Lemma count_finished_full (V : list Vehicle) :
  count_finished V = Z.of_nat (length V) ->
  Forall (fun v => finished v = true) V.
Proof.
  induction V as [|v V IH]; intros H; constructor.
  - rewrite count_finished_cons in H. cbn [length] in H.
    pose proof (count_finished_bounds V).
    destruct (finished v); [reflexivity|]. cbn [Z.b2z] in H. lia.
  - apply IH. rewrite count_finished_cons in H. cbn [length] in H.
    pose proof (count_finished_bounds V).
    destruct (finished v); cbn [Z.b2z] in H; lia.
Qed.

(** X20.  Each crossing is reported once.  In the output of a run of
    [0 <= N <= INT_MAX] vehicles that returns, every vehicle has at most
    one line ["CRUZÓ en esta iteración"]; if the state is printed at
    every step ([print_every = 1]) it has exactly one. *)
Theorem each_crossing_reported_once (fuel : nat) (N print_every : Z)
    (dt : double) (seed : Z) (wall : double) (r : Summary) (out : list Line) :
  0 <= N <= Int32.INT_MAX ->
  run_simulation_out max_threads RAND_MAX rand fuel N print_every dt seed wall
  = Returned (r, out) ->
  forall i, 0 <= i < N ->
    0 <= crossing_reports i out <= 1
    /\ (print_every = 1 -> crossing_reports i out = 1).
Proof.
  intros HN. unfold run_simulation_out.
  pose proof (init_sim_inv max_threads RAND_MAX rand N seed) as Hb0.
  pose proof (proj1 Hb0) as Hwf0.
  destruct Hwf0 as (HX & HV & Hcn & Hl).
  rewrite (print_configuration_spec _ N _ HV HX).
  match goal with
  | |- context [run_loop_out _ _ _ _ ?s ?o] =>
      set (out0 := o); set (s0 := s)
  end.
  destruct (run_loop_out fuel N print_every dt s0 out0)
    as [[s out1]| |] eqn:E; try discriminate.
  destruct (run_loop_out_reports N print_every dt HN fuel s0 out0 s out1 Hb0)
    as (Hb & Hge & Hinv); [| |exact E|].
  - intros k w Hk. unfold s0, init_sim, init_intersection, init_vehicles in Hk.
    cbn [vehicles] in Hk.
    assert (Hlt : (k < Z.to_nat N)%nat).
    { match type of Hk with
      | nth_error (init_vehicles_from _ _ ?n ?i ?sd ?c) _ = _ =>
          destruct (init_vehicles_from_fresh RAND_MAX rand n i sd c)
            as [Hlen _]; [lia|]
      end.
      rewrite <- Hlen. apply nth_error_Some. congruence. }
    rewrite init_vehicles_from_nth in Hk by exact Hlt.
    injection Hk as <-. cbn. lia.
  - intros k w Hk.
    pose proof (init_vehicles_fresh max_threads RAND_MAX rand N seed) as Hf.
    rewrite Forall_forall in Hf.
    destruct (Hf w (nth_error_In _ _ Hk)) as (Hfin & _).
    rewrite Hfin. cbn [Z.b2z].
    assert (H0 : crossing_reports (Z.of_nat k) out0 = 0).
    { apply crossing_reports_none. unfold out0.
      constructor; [exact I|]. apply Forall_app. split.
      - apply Forall_map, Forall_forall. intros; exact I.
      - apply Forall_app. split; [|repeat constructor].
        apply Forall_map, Forall_forall. intros; exact I. }
    rewrite H0. split; [lia|reflexivity].
  - destruct (c_for N (metrics (vehicles s)) (of_int 0, 0)) as [[a c]|];
      [|intros [=]].
    cbv zeta. intros [= _ <-] i Hi.
    destruct Hb as [(_ & HVs & _) Htc].
    pose proof (count_finished_bounds (vehicles s)) as Hcb.
    assert (Hall : Forall (fun v => finished v = true) (vehicles s))
      by (apply count_finished_full; lia).
    destruct (nth_error (vehicles s) (Z.to_nat i)) as [w|] eqn:Ew.
    + rewrite Forall_forall in Hall.
      pose proof (Hall w (nth_error_In _ _ Ew)) as Hw.
      destruct (Hinv _ w Ew) as [Hle Heq].
      rewrite Z2Nat.id, Hw in * by lia. cbn [Z.b2z] in *.
      rewrite crossing_reports_app.
      rewrite (crossing_reports_none i [summary_title; _; _; _; _; _; _])
        by (repeat constructor).
      split; [lia|]. intros Hp. rewrite (Heq Hp). lia.
    + apply nth_error_None in Ew. lia.
Qed.

(** The steps at which a state is printed, up to the step [k]: the
    multiples of [print_every]. *)
Lemma multiples_step (pe k : Z) :
  0 <= k ->
  (if 0 <? pe
   then map (fun j => Z.of_nat j * pe) (seq 1 (Z.to_nat ((k + 1) / pe)))
   else [])
  = (if 0 <? pe
     then map (fun j => Z.of_nat j * pe) (seq 1 (Z.to_nat (k / pe)))
     else [])
    ++ (if (0 <? pe) && (Int32.rem (k + 1) pe =? 0) then [k + 1] else []).
Proof.
  intros Hk. destruct (Z.ltb_spec 0 pe) as [Hpe|Hpe]; [|reflexivity].
  cbn [andb]. unfold Int32.rem. rewrite Z.rem_mod_nonneg by lia.
  assert (Hq : 0 <= k / pe) by (apply Z.div_pos; lia).
  destruct (Z.eqb_spec ((k + 1) mod pe) 0) as [E|E].
  - assert (Hd : (k + 1) / pe = k / pe + 1).
    { pose proof (Z.div_mod (k + 1) pe). pose proof (Z.div_mod k pe).
      pose proof (Z.mod_pos_bound k pe Hpe). nia. }
    rewrite Hd. replace (Z.to_nat (k / pe + 1)) with (S (Z.to_nat (k / pe)))
      by lia.
    rewrite seq_S, map_app. cbn [map]. f_equal. f_equal.
    pose proof (Z.div_mod (k + 1) pe). nia.
  - assert (Hd : (k + 1) / pe = k / pe).
    { pose proof (Z.div_mod (k + 1) pe). pose proof (Z.div_mod k pe).
      pose proof (Z.mod_pos_bound k pe Hpe).
      pose proof (Z.mod_pos_bound (k + 1) pe Hpe). nia. }
    rewrite Hd. now rewrite app_nil_r.
Qed.

Lemma run_loop_out_steps (N print_every : Z) (dt : double) :
  forall fuel s out s' out',
    wf_sim N s ->
    0 <= step s -> step s + Z.of_nat fuel <= Int32.INT_MAX ->
    reported_steps out
    = (if 0 <? print_every
       then map (fun j => Z.of_nat j * print_every)
              (seq 1 (Z.to_nat (step s / print_every)))
       else []) ->
    run_loop_out fuel N print_every dt s out = Returned (s', out') ->
    reported_steps out'
    = (if 0 <? print_every
       then map (fun j => Z.of_nat j * print_every)
              (seq 1 (Z.to_nat (step s' / print_every)))
       else []).
Proof.
  induction fuel as [|fuel IH]; intros s out s' out' Hwf H0 Hmax Hout; cbn;
    destruct (total_crossed s <? N); try discriminate;
    try (intros [= <- <-]; exact Hout).
  rewrite tick_closed_form by exact Hwf.
  set (s1 := tick_result N dt s).
  pose proof (tick_result_wf N dt s Hwf) as Hwf1. fold s1 in Hwf1.
  rewrite (print_tick_spec N print_every s1 Hwf1).
  assert (Hs1 : step s1 = step s + 1).
  { unfold s1, tick_result; cbn [step]. unfold Int32.add.
    apply wrap_in_range. unfold Int32.in_range, Int32.INT_MIN. lia. }
  apply IH; try assumption; try lia.
  rewrite reported_steps_app, Hout, Hs1, multiples_step by lia.
  f_equal. rewrite <- Hs1.
  destruct ((0 <? print_every) && (Int32.rem (step s1) print_every =? 0));
    [|reflexivity].
  change (state_title (step s1) (sim_time s1) :: ?l)
    with ([state_title (step s1) (sim_time s1)] ++ l).
  rewrite reported_steps_app. cbn [reported_steps flat_map app].
  f_equal. apply reported_steps_none.
  apply Forall_app. split.
  - apply Forall_map, Forall_forall. intros [w c] _. cbn [fst snd].
    unfold vehicle_line.
    destruct (negb (c =? 0)); [exact I|]. now destruct (finished w).
  - apply Forall_app. split; [|repeat constructor].
    apply Forall_map, Forall_forall. intros; exact I.
Qed.

(** X21.  The states printed are those of the steps [print_every],
    [2 * print_every], ... up to the last step of the run, in this
    order, each once; with [print_every <= 0] no state is printed.  (For
    a budget of at most [INT_MAX] ticks, so that the step counter does
    not wrap.) *)
Theorem states_printed_every_k_steps (fuel : nat) (N print_every : Z)
    (dt : double) (seed : Z) (wall : double) (r : Summary) (out : list Line) :
  Z.of_nat fuel <= Int32.INT_MAX ->
  run_simulation_out max_threads RAND_MAX rand fuel N print_every dt seed wall
  = Returned (r, out) ->
  reported_steps out
  = if 0 <? print_every
    then map (fun j => Z.of_nat j * print_every)
           (seq 1 (Z.to_nat (sm_steps r / print_every)))
    else [].
Proof.
  intros Hfuel. unfold run_simulation_out.
  pose proof (init_sim_wf max_threads RAND_MAX rand N seed) as Hwf0.
  destruct Hwf0 as (HX & HV & Hcn & Hl).
  rewrite (print_configuration_spec _ N _ HV HX).
  match goal with
  | |- context [run_loop_out _ _ _ _ ?s ?o] =>
      set (out0 := o); set (s0 := s)
  end.
  destruct (run_loop_out fuel N print_every dt s0 out0)
    as [[s out1]| |] eqn:E; try discriminate.
  assert (H0 : reported_steps out0 = []).
  { apply reported_steps_none. unfold out0.
    constructor; [exact I|]. apply Forall_app. split.
    - apply Forall_map, Forall_forall. intros; exact I.
    - apply Forall_app. split; [|repeat constructor].
      apply Forall_map, Forall_forall. intros; exact I. }
  pose proof (run_loop_out_steps N print_every dt fuel s0 out0 s out1
                (conj HX (conj HV (conj Hcn Hl)))) as Hs.
  change (step s0) with 0 in Hs. rewrite Zdiv_0_l in Hs. cbn [Z.to_nat seq map] in Hs.
  assert (Hnil : (if 0 <? print_every then @nil Z else []) = [])
    by (now destruct (0 <? print_every)).
  rewrite Hnil in Hs. specialize (Hs (Z.le_refl 0) Hfuel H0 E).
  destruct (c_for N (metrics (vehicles s)) (of_int 0, 0)) as [[a c]|];
    [|intros [=]].
  cbv zeta. intros [= <- <-]. cbn [sm_steps].
  rewrite reported_steps_app, Hs.
  rewrite (reported_steps_none [summary_title; _; _; _; _; _; _])
    by (repeat constructor).
  now rewrite app_nil_r.
Qed.

End OutputFacts.

Section OutputOnBinary64.

#[local] Existing Instance IEEE.binary64.
Import Scenario.

(** A run of two vehicles that prints the state at every step. *)
Lemma each_crossing_reported_once_witness :
  0 <= 2 <= Int32.INT_MAX
  /\ exists r out,
       run_simulation_out 8 RAND_MAX rand 60 2 1 (of_int 1) 7 (of_int 0)
       = Returned (r, out)
       /\ forall i, 0 <= i < 2 ->
            0 <= crossing_reports i out <= 1
            /\ (1 = 1 -> crossing_reports i out = 1).
Proof.
  assert (H1 : 0 <= 2 <= Int32.INT_MAX) by (unfold Int32.INT_MAX; lia).
  split; [exact H1|].
  assert (H : match run_simulation_out 8 RAND_MAX rand 60 2 1 (of_int 1) 7
                      (of_int 0) with
              | Returned _ => True
              | _ => False
              end) by (vm_compute; exact I).
  destruct (run_simulation_out 8 RAND_MAX rand 60 2 1 (of_int 1) 7 (of_int 0))
    as [[r out]| |] eqn:E; [|destruct H|destruct H].
  exists r, out. split; [reflexivity|].
  exact (each_crossing_reported_once 8 RAND_MAX rand 60 2 1 (of_int 1) 7
           (of_int 0) r out H1 E).
Defined.

(** The same run, the state printed every third step: it takes 8 steps,
    and the states of the steps 3 and 6 are printed. *)
Lemma states_printed_every_k_steps_witness :
  Z.of_nat 60 <= Int32.INT_MAX
  /\ exists r out,
       run_simulation_out 8 RAND_MAX rand 60 2 3 (of_int 1) 7 (of_int 0)
       = Returned (r, out)
       /\ (sm_steps r = 8 /\ reported_steps out = [3; 6])
       /\ reported_steps out
          = if 0 <? 3
            then map (fun j => Z.of_nat j * 3)
                   (seq 1 (Z.to_nat (sm_steps r / 3)))
            else [].
Proof.
  assert (H1 : Z.of_nat 60 <= Int32.INT_MAX)
    by (unfold Int32.INT_MAX; cbn; lia).
  split; [exact H1|].
  assert (H : match run_simulation_out 8 RAND_MAX rand 60 2 3 (of_int 1) 7
                      (of_int 0) with
              | Returned (r, out) =>
                  sm_steps r = 8 /\ reported_steps out = [3; 6]
              | _ => False
              end) by (vm_compute; split; reflexivity).
  destruct (run_simulation_out 8 RAND_MAX rand 60 2 3 (of_int 1) 7 (of_int 0))
    as [[r out]| |] eqn:E; [|destruct H|destruct H].
  exists r, out. split; [reflexivity|]. split; [exact H|].
  exact (states_printed_every_k_steps 8 RAND_MAX rand 60 2 3 (of_int 1) 7
           (of_int 0) r out H1 E).
Defined.

End OutputOnBinary64.

(** ** Crossing and the colour of the light *)

Section Colours.

Context {D : Double}.
Variable max_threads : Z.

(** A call that finishes a vehicle found the light of its lane GREEN or
    YELLOW. *)
Lemma step_vehicle_crosses (X : Intersection) (dt : double) (v : Vehicle) :
  finished v = false ->
  finished (fst (step_vehicle X dt v)) = true ->
  exists L, aget (lights X) (lane v) = Some L
            /\ (state L = GREEN \/ state L = YELLOW)
            /\ pos (fst (step_vehicle X dt v)) = of_int 0
            /\ crossings (fst (step_vehicle X dt v)) = 1
            /\ snd (step_vehicle X dt v) = 1.
Proof.
  unfold step_vehicle, move_vehicle, count_wait.
  destruct v as [i l p sp w tw c f]; cbn. intros ->.
  destruct (aget (lights X) l) as [L|]; cbn; [|discriminate].
  rewrite go_spec. intros H. exists L. split; [reflexivity|].
  revert H.
  destruct (state L), w; cbn;
    repeat match goal with
      | |- context [dle ?a ?b] => destruct (dle a b); cbn
      end; try discriminate; auto.
Qed.

(** X3.  No vehicle crosses on red.  If a vehicle finishes in a tick,
    then the light of its lane, as updated in this tick, is GREEN or
    YELLOW; the vehicle is left at [0.0] with [crossings = 1] and its
    crossing flag is set. *)
Theorem no_crossing_on_red (N : Z) (dt : double) (s s' : Sim) (i : Z)
    (v v' : Vehicle) :
  wf_sim N s ->
  tick N dt s = Some s' ->
  aget (vehicles s) i = Some v ->
  aget (vehicles s') i = Some v' ->
  finished v = false -> finished v' = true ->
  exists L, aget (lights (isect s')) (lane v') = Some L
            /\ (state L = GREEN \/ state L = YELLOW)
            /\ pos v' = of_int 0 /\ crossings v' = 1
            /\ aget (crossed_now s') i = Some 1.
Proof.
  intros Hwf Ht Hv Hv' Hf Hf'.
  rewrite tick_closed_form in Ht by exact Hwf. injection Ht as <-.
  unfold tick_result in *; cbn [vehicles isect crossed_now] in *.
  rewrite !aget_map in *. rewrite Hv in *. cbn [option_map] in *.
  injection Hv' as <-.
  destruct (step_vehicle_crosses _ dt v Hf Hf') as (L & HL & Hs & Hp & Hc & Hr).
  exists L. rewrite step_vehicle_lane, Hr. auto.
Qed.

End Colours.

Section ColoursOnBinary64.

#[local] Existing Instance IEEE.binary64.
Import Scenario.

Lemma no_crossing_on_red_witness :
  wf_sim 1 (start 8 (crossing GREEN 2) [arriving])
  /\ tick 1 (of_int 1) (start 8 (crossing GREEN 2) [arriving])
     = Some (tick_result 1 (of_int 1) (start 8 (crossing GREEN 2) [arriving]))
  /\ exists L,
       aget (lights (isect (tick_result 1 (of_int 1)
                              (start 8 (crossing GREEN 2) [arriving]))))
         (lane (mkVehicle 0 0 (of_int 0) (of_int 5) false (of_int 0) 1 true))
       = Some L
       /\ (state L = GREEN \/ state L = YELLOW)
       /\ pos (mkVehicle 0 0 (of_int 0) (of_int 5) false (of_int 0) 1 true)
          = of_int 0
       /\ crossings (mkVehicle 0 0 (of_int 0) (of_int 5) false (of_int 0) 1 true)
          = 1
       /\ aget (crossed_now (tick_result 1 (of_int 1)
                               (start 8 (crossing GREEN 2) [arriving]))) 0
          = Some 1.
Proof.
  assert (H1 : wf_sim 1 (start 8 (crossing GREEN 2) [arriving])).
  { repeat split; cbn; try lia. repeat constructor; cbn; lia. }
  assert (H2 : tick 1 (of_int 1) (start 8 (crossing GREEN 2) [arriving])
               = Some (tick_result 1 (of_int 1)
                         (start 8 (crossing GREEN 2) [arriving])))
    by reflexivity.
  exact (conj H1 (conj H2
           (no_crossing_on_red 1 (of_int 1) _ _ 0 arriving
              (mkVehicle 0 0 (of_int 0) (of_int 5) false (of_int 0) 1 true)
              H1 H2 eq_refl eq_refl eq_refl eq_refl))).
Defined.

End ColoursOnBinary64.

(** ** The letters of the phases *)

(** X22.  [state_to_str] gives a different letter for each phase: the
    letter printed for a light tells its phase. *)
Theorem state_to_str_injective (a b : LightState) :
  state_to_str a = state_to_str b -> a = b.
Proof. destruct a, b; cbn; intros H; try reflexivity; discriminate H. Qed.

Lemma state_to_str_injective_witness :
  state_to_str GREEN = state_to_str GREEN /\ GREEN = GREEN.
Proof.
  assert (H : state_to_str GREEN = state_to_str GREEN) by reflexivity.
  exact (conj H (state_to_str_injective GREEN GREEN H)).
Defined.

(** ** The team size of a tick *)

Section TeamSize.

Context {D : Double}.
Variables max_threads RAND_MAX : Z.
Variable rand : Z -> nat -> Z.

(** The counting loop counts the green lights. *)
Lemma greens_count (ls : list TrafficLight) :
  Z.of_nat (length ls) <= Int32.INT_MAX ->
  greens ls
  = Z.of_nat (length (filter (fun L => LightState_eqb (state L) GREEN) ls)).
Proof.
  unfold greens.
  assert (G : forall (l : list TrafficLight) (a : Z),
             0 <= a -> a + Z.of_nat (length l) <= Int32.INT_MAX ->
             fold_left
               (fun g L => if LightState_eqb (state L) GREEN
                           then Int32.add g 1 else g) l a
             = a + Z.of_nat
                     (length (filter (fun L => LightState_eqb (state L) GREEN)
                                l))).
  { induction l as [|L l IH]; intros a Ha Hmax; cbn [fold_left filter length].
    - lia.
    - cbn [length] in Hmax.
      destruct (LightState_eqb (state L) GREEN).
      + unfold Int32.add. rewrite wrap_in_range
          by (unfold Int32.in_range, Int32.INT_MIN; lia).
        rewrite IH by lia. cbn [length]. lia.
      + rewrite IH by lia. lia. }
  intros H. rewrite G by lia. lia.
Qed.

Lemma reachable_four_lights (N : Z) (dt : double) (seed : Z) (s : Sim) :
  reachable max_threads RAND_MAX rand N dt seed s ->
  length (lights (isect s)) = 4%nat.
Proof.
  intros H. induction H as [|s s' Hr IH _ Ht]; [reflexivity|].
  rewrite tick_closed_form in Ht by (eapply reachable_wf; eassumption).
  injection Ht as <-. cbn. now rewrite length_map.
Qed.

(** The clamp of [choose_threads]. *)
Lemma choose_threads_clamped (M n g : Z) :
  choose_threads M n g <= M /\ (1 <= M -> 1 <= choose_threads M n g).
Proof.
  unfold choose_threads.
  generalize (Int32.add (Int32.div (Int32.add n 15) 16)
                (if 0 <? g then Int32.add 1 (Int32.div g 2) else 1)).
  intros p.
  destruct (Z.ltb_spec p 1);
    match goal with
    | |- context [M <? ?x] => destruct (Z.ltb_spec M x)
    end; lia.
Qed.

(** What [omp_get_max_threads()] returns in a run: the value at the
    start of the program before the first tick, the team size of the
    last tick afterwards; never more than the value at the start. *)
Lemma reachable_nthreads_var (N : Z) (dt : double) (seed : Z) (s : Sim) :
  reachable max_threads RAND_MAX rand N dt seed s ->
  (s = init_sim max_threads RAND_MAX rand N seed
   \/ nthreads_var s = threads s)
  /\ nthreads_var s <= max_threads
  /\ (1 <= max_threads -> 1 <= nthreads_var s).
Proof.
  intros H. induction H as [|s s' Hr IH _ Ht].
  - cbn. repeat split; [now left | lia | tauto].
  - rewrite tick_closed_form in Ht by (eapply reachable_wf; eassumption).
    injection Ht as <-. destruct IH as (_ & Hle & Hge).
    unfold tick_result; cbn [nthreads_var threads].
    destruct (choose_threads_clamped (nthreads_var s) N
                (greens (lights (isect s)))) as [Hc1 Hc2].
    split; [now right|].
    split; [lia|]. intros HM. apply Hc2. now apply Hge.
Qed.

(** X23.  The team size of a tick.  In every tick of a run the value
    handed to [omp_set_num_threads] is [choose_threads(num_vehicles, g)],
    where [g], between 0 and 4, is the number of lights that are GREEN
    when the tick begins (before the lights are updated in it), and where
    the call of [omp_get_max_threads()] in [choose_threads] returns the
    control variable that [omp_set_num_threads] wrote in the tick before:
    the maximum of the platform in the first tick, the team size of the
    previous tick afterwards.  So the team size never grows from one tick
    to the next, whatever the lights do; the control variable after the
    tick, which the status line of the tick prints as "max", is the team
    size itself; and if the maximum of the platform is at least 1, every
    team size lies between 1 and that maximum. *)
Theorem team_size_of_tick (N : Z) (dt : double) (seed : Z) (s s' : Sim) :
  reachable max_threads RAND_MAX rand N dt seed s ->
  tick N dt s = Some s' ->
  let g := Z.of_nat (length (filter (fun L => LightState_eqb (state L) GREEN)
                               (lights (isect s)))) in
  threads s' = choose_threads (nthreads_var s) N g
  /\ 0 <= g <= 4
  /\ (s = init_sim max_threads RAND_MAX rand N seed
      /\ nthreads_var s = max_threads
      \/ nthreads_var s = threads s)
  /\ threads s' <= nthreads_var s <= max_threads
  /\ nthreads_var s' = threads s'
  /\ (1 <= max_threads -> 1 <= threads s').
Proof.
  intros Hr Ht g.
  pose proof (reachable_four_lights N dt seed s Hr) as H4.
  destruct (reachable_nthreads_var N dt seed s Hr) as (Hprev & Hle & Hge).
  rewrite tick_closed_form in Ht by (eapply reachable_wf; eassumption).
  injection Ht as <-. unfold tick_result; cbn [threads nthreads_var].
  rewrite greens_count by (rewrite H4; unfold Int32.INT_MAX; cbn; lia).
  fold g.
  destruct (choose_threads_clamped (nthreads_var s) N g) as [Hc1 Hc2].
  split; [reflexivity|]. split.
  { pose proof (filter_length_le (fun L => LightState_eqb (state L) GREEN)
                  (lights (isect s))) as Hlen.
    unfold g. rewrite H4 in Hlen. lia. }
  split.
  { destruct Hprev as [-> | Hp]; [left; split; reflexivity | now right]. }
  split; [lia|]. split; [reflexivity|].
  intros HM. apply Hc2. now apply Hge.
Qed.

End TeamSize.

Section TeamSizeOnBinary64.

#[local] Existing Instance IEEE.binary64.
Import Scenario.

(** The seventh tick of a run of two vehicles: the four lights are GREEN
    and [choose_threads] would propose 4 of the 8 threads of the
    platform, but an earlier tick has set the team size to 3, and 3 it
    stays. *)
Lemma team_size_of_tick_witness :
  let s := tick_results 2 (of_int 1) 6 (init_sim 8 RAND_MAX rand 2 987654312) in
  reachable 8 RAND_MAX rand 2 (of_int 1) 987654312 s
  /\ tick 2 (of_int 1) s = Some (tick_result 2 (of_int 1) s)
  /\ map state (lights (isect s)) = [GREEN; GREEN; GREEN; GREEN]
  /\ choose_threads 8 2 4 = 4
  /\ threads (tick_result 2 (of_int 1) s) = 3
  /\ (let g := Z.of_nat
                 (length (filter (fun L => LightState_eqb (state L) GREEN)
                            (lights (isect s)))) in
      threads (tick_result 2 (of_int 1) s)
      = choose_threads (nthreads_var s) 2 g
      /\ 0 <= g <= 4
      /\ (s = init_sim 8 RAND_MAX rand 2 987654312 /\ nthreads_var s = 8
          \/ nthreads_var s = threads s)
      /\ threads (tick_result 2 (of_int 1) s) <= nthreads_var s <= 8
      /\ nthreads_var (tick_result 2 (of_int 1) s)
         = threads (tick_result 2 (of_int 1) s)
      /\ (1 <= 8 -> 1 <= threads (tick_result 2 (of_int 1) s))).
Proof.
  intros s.
  assert (H1 : reachable 8 RAND_MAX rand 2 (of_int 1) 987654312 s).
  { apply reachable_tick_results; [constructor | vm_compute; reflexivity]. }
  assert (H2 : tick 2 (of_int 1) s = Some (tick_result 2 (of_int 1) s)).
  { apply tick_closed_form.
    apply (reachable_wf 8 RAND_MAX rand 2 (of_int 1) 987654312 s H1). }
  assert (H3 : map state (lights (isect s)) = [GREEN; GREEN; GREEN; GREEN])
    by (vm_compute; reflexivity).
  assert (H4 : choose_threads 8 2 4 = 4) by reflexivity.
  assert (H5 : threads (tick_result 2 (of_int 1) s) = 3)
    by (vm_compute; reflexivity).
  exact (conj H1 (conj H2 (conj H3 (conj H4 (conj H5
           (team_size_of_tick 8 RAND_MAX rand 2 (of_int 1) 987654312 _ _
              H1 H2)))))).
Defined.

End TeamSizeOnBinary64.

(** ** Configurations are not validated *)

Section Configuration.

Context {D : Double}.
Variables max_threads RAND_MAX : Z.
Variable rand : Z -> nat -> Z.




End Configuration.
